(** * Samplers: struct-to-table rendering of the geneos samplers package

    A shallow embedding of [samplers] (tag parsing, schema derivation,
    row building in plain and delta mode, row sorting) together with the
    properties its specification states about it.

    Go values are modelled as follows.
    - [string] is Go's byte string; comparison is bytewise.
    - [int] and [time.Duration] are [Z] (no arithmetic of the package
      overflows: the only integer operations are index increments and
      the quotient and remainder of [Duration.Seconds]).
    - [float64] is IEEE-754 binary64, through the Standard Library's
      [spec_float] with precision 53 and maximal exponent 1024.
    - [map[string]columndetails] is a [gmap]; a missing key reads as the
      zero value, as in Go.
    - a Go map given as data is the list of its entries in the order in
      which the runtime yields its keys (Go leaves that order open, so
      every statement quantifies over it).
    - a run-time panic is an outcome of its own ([Panic]); a Go [error]
      result is an [option error] next to the other results. *)

From Stdlib Require Import ZArith String Ascii List Lia Permutation.
From Stdlib Require Import Floats.SpecFloat.
From stdpp Require Import gmap strings list fin_maps pretty sorting.

Local Open Scope string_scope.
Local Open Scope list_scope.
Local Open Scope Z_scope.

(** ** Outcomes *)

Inductive panic :=
| IndexOutOfRange
| NilDereference.

Inductive exec (A : Type) :=
| Ret (a : A)
| Panic (p : panic).
Arguments Ret {A} a.
Arguments Panic {A} p.

#[global] Instance exec_ret : MRet exec := fun A a => Ret a.
#[global] Instance exec_bind : MBind exec := fun A B k m =>
  match m with
  | Ret a => k a
  | Panic p => Panic p
  end.

(** The [error] values the package builds with [fmt.Errorf]. *)
Inductive error :=
| ErrNameRedefined (name : string)  (* "column name %q redefined more than once" *)
| ErrNotStruct                      (* "rowdata is not a struct" *)
| ErrRowNotStruct                   (* "row data not a struct" *)
| ErrNonMap                         (* "non Map passed" / "non map passed" *)
| ErrNonSlice                       (* "non Slice passed" *)
| ErrNonMatchingTypes               (* "non-matching types in data" *)
| ErrNotConvertible                 (* "cannot convert %v to float" *)
| ErrNoDataview.                    (* "UpdateTable(%q): dataview doesn't exist" *)

(** ** Values *)

Definition float64 := spec_float.

Definition prec64 : Z := 53.
Definition emax64 : Z := 1024.

Definition f64_of_Z (n : Z) : float64 := binary_normalize prec64 emax64 n 0 false.
Definition f64_sub : float64 -> float64 -> float64 := SFsub prec64 emax64.
Definition f64_add : float64 -> float64 -> float64 := SFadd prec64 emax64.
Definition f64_div : float64 -> float64 -> float64 := SFdiv prec64 emax64.
Definition f64_eqb : float64 -> float64 -> bool := SFeqb.
Definition f64_ltb : float64 -> float64 -> bool := SFltb.
Definition f64_geb (x y : float64) : bool := SFleb y x.

(** The field values of a flat struct, with their dynamic type. *)
Inductive value :=
| VInt (n : Z)
| VFloat64 (f : float64)
| VString (s : string)
| VBool (b : bool).

Inductive type := TInt | TFloat64 | TString | TBool.

Definition TypeOf (v : value) : type :=
  match v with
  | VInt _ => TInt
  | VFloat64 _ => TFloat64
  | VString _ => TString
  | VBool _ => TBool
  end.

Definition type_eqb (a b : type) : bool :=
  match a, b with
  | TInt, TInt | TFloat64, TFloat64 | TString, TString | TBool, TBool => true
  | _, _ => false
  end.

(** [reflect.Type.ConvertibleTo(float64)] *)
Definition ConvertibleToFloat (t : type) : bool :=
  match t with
  | TInt | TFloat64 => true
  | TString | TBool => false
  end.

(** A struct field as [reflect] shows it: its name and the result of
    [Tag.Lookup("column")]. *)
Record structField := { Name : string; Tag : option string }.

(** What a caller can hand over as [interface{}].  An [item] is a flat
    struct (its fields in declaration order, each with its value) or
    anything whose [Kind] is not [Struct]; [data] is one item, a map with
    string keys or a slice.  Pointers are left out: every
    [reflect.Indirect] of the package is then the identity. *)
Inductive item :=
| Struct (fs : list (structField * value))
| Other.

Inductive data :=
| Item (x : item)
| Map (kvs : list (string * item))
| Slice (vs : list item).

(** [reflect.Value.MapIndex]: the entry of the key, or the zero Value. *)
Fixpoint MapIndex (kvs : list (string * item)) (k : string) : option item :=
  match kvs with
  | [] => None
  | (k', d) :: rest => if String.eqb k' k then Some d else MapIndex rest k
  end.

(** ** The Go library functions the package calls

    [fmt.Sprintf] with one argument and [strconv.ParseFloat] are not
    code of this package: they are taken as an interface.  [ParseFloat]
    returns its value together with the error; on a syntax error the
    value is zero (the package relies on it: "zero is a valid answer if
    the contents are not a float"). *)

Inductive numError := ErrSyntax | ErrRange.

Definition f64_zero : float64 := S754_zero false.

Class GoLib := {
  Sprintf : string -> value -> string;
  ParseFloat : string -> float64 * option numError
}.

Definition zeroOnSyntaxError (L : GoLib) : Prop :=
  forall s f, ParseFloat s = (f, Some ErrSyntax) -> f = f64_zero.

(** ** strings *)

(** [strings.Split(s, sep)] for a one-byte separator. *)
Fixpoint Split (s : string) (sep : ascii) : list string :=
  match s with
  | EmptyString => [EmptyString]
  | String ch rest =>
      if Ascii.eqb ch sep then EmptyString :: Split rest sep
      else match Split rest sep with
           | [] => [String ch EmptyString]
           | piece :: pieces => String ch piece :: pieces
           end
  end.

(** [strings.IndexByte]: the first index of the byte, or -1. *)
Fixpoint IndexByte (s : string) (c : ascii) : Z :=
  match s with
  | EmptyString => -1
  | String ch rest =>
      if Ascii.eqb ch c then 0
      else let i := IndexByte rest c in
           if i =? -1 then -1 else i + 1
  end.

Definition len (s : string) : Z := Z.of_nat (String.length s).

(** [s[i]], which panics out of range. *)
Definition byteAt (s : string) (i : Z) : exec ascii :=
  if (i <? 0) || (len s <=? i) then Panic IndexOutOfRange
  else match String.get (Z.to_nat i) s with
       | Some ch => Ret ch
       | None => Panic IndexOutOfRange
       end.

(** [s[lo:hi]] for [0 <= lo <= hi <= len s]. *)
Definition slice (s : string) (lo hi : Z) : string :=
  substring (Z.to_nat lo) (Z.to_nat (hi - lo)) s.

(** [strings.HasSuffix] *)
Definition HasSuffix (s suffix : string) : bool :=
  (len suffix <=? len s) && String.eqb (slice s (len s - len suffix) (len s)) suffix.

(** ** Column descriptors *)

Inductive sortType := sortNone | sortAsc | sortDesc | sortAscNum | sortDescNum.

Definition sortType_eqb (a b : sortType) : bool :=
  match a, b with
  | sortNone, sortNone | sortAsc, sortAsc | sortDesc, sortDesc
  | sortAscNum, sortAscNum | sortDescNum, sortDescNum => true
  | _, _ => false
  end.

Record columndetails := {
  tags : string;
  name : string;
  number : Z;
  format : string;
  convfunc : option (value -> string);
  sort : sortType
}.

(** The zero value of [columndetails], read for a key the map lacks. *)
Definition zeroColumn : columndetails :=
  {| tags := ""; name := ""; number := 0; format := ""; convfunc := None; sort := sortNone |}.

Definition set_name (n : string) (c : columndetails) : columndetails :=
  {| tags := tags c; name := n; number := number c; format := format c;
     convfunc := convfunc c; sort := sort c |}.
Definition set_number (i : Z) (c : columndetails) : columndetails :=
  {| tags := tags c; name := name c; number := i; format := format c;
     convfunc := convfunc c; sort := sort c |}.
Definition set_format (f : string) (c : columndetails) : columndetails :=
  {| tags := tags c; name := name c; number := number c; format := f;
     convfunc := convfunc c; sort := sort c |}.
Definition set_sort (s : sortType) (c : columndetails) : columndetails :=
  {| tags := tags c; name := name c; number := number c; format := format c;
     convfunc := convfunc c; sort := s |}.

Abbreviation Columns := (gmap string columndetails).

(** [c[key]] *)
Definition col (c : Columns) (key : string) : columndetails :=
  default zeroColumn (c !! key).

Definition sorting : string := "sort".
Definition format_ : string := "format".

(** ** parseTags *)

(** The [sort=] clause [t], with [i] the index of its [=]. *)
Definition parseSort (t : string) (i : Z) (cols : columndetails) : exec columndetails :=
  let cols := set_sort sortAsc cols in
  ch ← byteAt t (i + 1);
  let cols := if Ascii.eqb ch "-" then set_sort sortDesc cols else cols in
  Ret (if HasSuffix (slice t (i + 1) (len t)) "num"
       then if sortType_eqb (sort cols) sortAsc
            then set_sort sortAscNum cols
            else set_sort sortDescNum cols
       else cols).

(** The loop over the clauses; an error returns the descriptor as it
    stands (the results are named). *)
Fixpoint parseTags_loop (fieldname : string) (clauses : list string)
    (cols : columndetails) : exec (columndetails * option error) :=
  match clauses with
  | [] => Ret (cols, None)
  | t :: rest =>
      let i := IndexByte t "=" in
      if i =? -1 then
        if negb (String.eqb (name cols) fieldname)
        then Ret (cols, Some (ErrNameRedefined (name cols)))
        else parseTags_loop fieldname rest (set_name t cols)
      else
        let prefix := slice t 0 i in
        if String.eqb prefix sorting then
          cols' ← parseSort t i cols;
          parseTags_loop fieldname rest cols'
        else if String.eqb prefix format_ then
          parseTags_loop fieldname rest (set_format (slice t (i + 1) (len t)) cols)
        else parseTags_loop fieldname rest cols
  end.

Definition parseTags (fieldname tag : string) : exec (columndetails * option error) :=
  let cols := {| tags := tag; name := fieldname; number := 0; format := "%v";
                 convfunc := None; sort := sortNone |} in
  parseTags_loop fieldname (Split tag ",") cols.

(** ** ColumnInfo *)

(** The end of the loop body: the name goes to the column names unless
    it is ["OMIT"], and the descriptor to the registry. *)
Definition addColumn (fieldname : string) (column : columndetails)
    (cols : Columns) (columnnames : list string) : Columns * list string :=
  (<[fieldname := column]> cols,
   if String.eqb (name column) "OMIT" then columnnames
   else columnnames ++ [name column]).

(** The descriptor of field number [i] and whether its tag declares a
    sort mode. *)
Definition fieldColumn (f : structField) (i : Z) : exec (columndetails * bool * option error) :=
  match Tag f with
  | Some tags =>
      '(column, err) ← parseTags (Name f) tags;
      Ret (set_number i column, negb (sortType_eqb (sort column) sortNone), err)
  | None =>
      Ret ({| tags := ""; name := Name f; number := i; format := "%v";
              convfunc := None; sort := sortNone |}, false, None)
  end.

Fixpoint ColumnInfo_loop (fields : list structField) (i : Z) (cols : Columns)
    (columnnames : list string) (sorting : string)
    : exec (Columns * list string * string * option error) :=
  match fields with
  | [] => Ret (cols, columnnames, sorting, None)
  | f :: rest =>
      '(column, sorts, err) ← fieldColumn f i;
      match err with
      | Some e => Ret (cols, columnnames, sorting, Some e)
      | None =>
          let sorting := if sorts : bool then Name f else sorting in
          let '(cols, columnnames) := addColumn (Name f) column cols columnnames in
          ColumnInfo_loop rest (i + 1) cols columnnames sorting
      end
  end.

(** [rt.Field(0)] panics on a struct without fields. *)
Definition ColumnInfo (rowdata : data)
    : exec (Columns * list string * string * option error) :=
  match rowdata with
  | Item (Struct fs) =>
      match fs with
      | [] => Panic IndexOutOfRange
      | (f0, _) :: _ => ColumnInfo_loop (map fst fs) 0 ∅ [] (Name f0)
      end
  | _ => Ret (∅, [], "", Some ErrNotStruct)
  end.

(** ** The sampler and its dataview *)

(** The dataview is the remote table; [UpdateTable] replaces its
    contents (the transport is taken to deliver). *)
Record Dataview := { valid : bool; table : list (list string) }.

Definition UpdateTable (d : Dataview) (columns : list string)
    (values : list (list string)) : Dataview * option error :=
  if negb (valid d) then (d, Some ErrNoDataview)
  else ({| valid := valid d; table := columns :: values |}, None).

Record Samplers := {
  dataview : option Dataview;
  interval : Z;
  columns : Columns;
  columnnames : list string;
  sortcolumn : string
}.

(** ** Sorting *)

(** [rows[a][sortby]] *)
Definition cell (row : list string) (sortby : Z) : exec string :=
  if sortby <? 0 then Panic IndexOutOfRange
  else match row !! Z.to_nat sortby with
       | Some s => Ret s
       | None => Panic IndexOutOfRange
       end.

Definition str_ltb (a b : string) : bool := String.ltb a b.
Definition str_geb (a b : string) : bool := negb (String.ltb a b).

(** The comparison closure of [sortRows], on the two rows that stand at
    the indices it is called with. *)
Definition less `{GoLib} (sorttype : sortType) (sortby : Z)
    (ra rb : list string) : exec bool :=
  sa ← cell ra sortby;
  sb ← cell rb sortby;
  match sorttype with
  | sortDesc => Ret (str_geb sa sb)
  | sortAscNum =>
      let an := fst (ParseFloat sa) in
      let bn := fst (ParseFloat sb) in
      if f64_eqb an bn then Ret (str_ltb sa sb) else Ret (f64_ltb an bn)
  | sortDescNum =>
      let an := fst (ParseFloat sa) in
      let bn := fst (ParseFloat sb) in
      if f64_eqb an bn then Ret (str_geb sa sb) else Ret (f64_geb an bn)
  | _ => Ret (str_ltb sa sb)
  end.

(** [sort.Slice] is Go's library.  On a slice of at most 12 elements it
    runs [insertionSort_func]:
      for i := a + 1; i < b; i++ {
        for j := i; j > a && data.Less(j, j-1); j-- { data.Swap(j, j-1) }
      }
    which is what is modelled here (longer slices go through a quicksort
    over the same [Less] and [Swap]).  [insertBack] is the inner loop: the
    prefix already handled is kept reversed, so that its head is the
    element at [j-1]. *)
Section InsertionSort.
Context {A : Type} (lessf : A -> A -> exec bool).

Fixpoint insertBack (x : A) (rev_prefix : list A) : exec (list A) :=
  match rev_prefix with
  | [] => Ret [x]
  | y :: ys =>
      b ← lessf x y;
      if b : bool then r ← insertBack x ys; Ret (y :: r)
      else Ret (x :: y :: ys)
  end.

Fixpoint insertionSort_loop (rev_prefix rest : list A) : exec (list A) :=
  match rest with
  | [] => Ret (rev rev_prefix)
  | x :: rest' =>
      p ← insertBack x rev_prefix;
      insertionSort_loop p rest'
  end.

Definition sort_Slice (l : list A) : exec (list A) :=
  insertionSort_loop [] l.
End InsertionSort.

Definition sortRows `{GoLib} (c : Columns) (rows : list (list string))
    (sortcol : string) : exec (list (list string)) :=
  let sorttype := sort (col c sortcol) in
  let sortby := number (col c sortcol) in
  sort_Slice (less sorttype sortby) rows.

(** ** Row building *)

Definition rowFromStruct (c : Columns) (rv : option item) : list value * option error :=
  match rv with
  | Some (Struct fs) => (map snd fs, None)
  | _ => ([], Some ErrRowNotStruct)
  end.

(** The fields of [reflect.Indirect(rv).Type()], for the rows that
    [rowFromStruct] projects. *)
Definition fieldsOf (rv : option item) : list structField :=
  match rv with
  | Some (Struct fs) => map fst fs
  | _ => []
  end.

(** The inner loop of [RowsFromMap] and [RowsFromSlice]:
    [for i := range rawcells], with [t.Field(i)] next to [rawcells[i]]. *)
Fixpoint renderCells `{GoLib} (c : Columns) (t : list structField)
    (rawcells : list value) (cells : list string) : list string :=
  match t, rawcells with
  | f :: t', v :: rawcells' =>
      let fieldname := Name f in
      let format := format (col c fieldname) in
      if String.eqb (name (col c fieldname)) "OMIT" then renderCells c t' rawcells' cells
      else renderCells c t' rawcells' (cells ++ [Sprintf format v])
  | _, _ => cells
  end.

Definition renderRow `{GoLib} (c : Columns) (rv : option item) : list string :=
  let '(rawcells, _) := rowFromStruct c rv in
  renderCells c (fieldsOf rv) rawcells [].

Definition RowsFromMap `{GoLib} (s : Samplers) (rowdata : data)
    : exec (list (list string) * option error) :=
  let c := columns s in
  match rowdata with
  | Map r =>
      let rows := map (fun k => renderRow c (MapIndex r k)) (map fst r) in
      rows ← sortRows c rows (sortcolumn s);
      Ret (rows, None)
  | _ => Ret ([], Some ErrNonMap)
  end.

Definition RowsFromSlice `{GoLib} (s : Samplers) (rowdata : data)
    : exec (list (list string) * option error) :=
  let c := columns s in
  match rowdata with
  | Slice rd => Ret (map (fun v => renderRow c (Some v)) rd, None)
  | _ => Ret ([], Some ErrNonSlice)
  end.

(** ** Delta mode *)

Definition Second : Z := 1000000000.

(** [time.Duration.Seconds]: [float64(d / Second) + float64(d % Second)/1e9],
    with Go's truncated division. *)
Definition Seconds (d : Z) : float64 :=
  let sec := Z.quot d Second in
  let nsec := Z.rem d Second in
  f64_add (f64_of_Z sec) (f64_div (f64_of_Z nsec) (f64_of_Z 1000000000)).

(** [reflect.Value.Convert] to [float64], for the convertible types. *)
Definition Convert (v : value) : float64 :=
  match v with
  | VInt n => f64_of_Z n
  | VFloat64 x => x
  | _ => f64_zero
  end.

Definition toFloat (f : value) : float64 * option error :=
  if negb (ConvertibleToFloat (TypeOf f)) then (f64_zero, Some ErrNotConvertible)
  else (Convert f, None).

(** The inner loop of [RowsFromMapDelta] over the fields of one entry:
    it ends with the cells of the row ([inl]), or leaves the whole
    function with an error ([inr]), or panics on [rawold[i]]. *)
Fixpoint deltaCells `{GoLib} (c : Columns) (interval : Z) (t : list structField)
    (rawcells rawold : list value) (i : nat) (cells : list string)
    : exec (list string + error) :=
  match t, rawcells with
  | f :: t', newcell :: rawcells' =>
      let fieldname := Name f in
      let format := format (col c fieldname) in
      if String.eqb (name (col c fieldname)) "OMIT"
      then deltaCells c interval t' rawcells' rawold (S i) cells
      else
        match rawold !! i with
        | None => Panic IndexOutOfRange
        | Some oldcell =>
            if negb (type_eqb (TypeOf oldcell) (TypeOf newcell))
            then Ret (inr ErrNonMatchingTypes)
            else
              let '(newfloat, nerr) := toFloat newcell in
              let '(oldfloat, oerr) := toFloat oldcell in
              match nerr, oerr with
              | None, None =>
                  deltaCells c interval t' rawcells' rawold (S i)
                    (cells ++ [Sprintf format
                       (VFloat64 (f64_div (f64_sub newfloat oldfloat) (Seconds interval)))])
              | _, _ =>
                  deltaCells c interval t' rawcells' rawold (S i)
                    (cells ++ [Sprintf format newcell])
              end
        end
  | _, _ => Ret (inl cells)
  end.

Definition deltaRow `{GoLib} (c : Columns) (interval : Z)
    (rnew rold : list (string * item)) (k : string) : exec (list string + error) :=
  let '(rawold, _) := rowFromStruct c (MapIndex rold k) in
  let '(rawcells, _) := rowFromStruct c (MapIndex rnew k) in
  deltaCells c interval (fieldsOf (MapIndex rnew k)) rawcells rawold 0%nat [].

(** The loop over [rnew.MapKeys()]; an error leaves with the rows
    appended so far (the results are named). *)
Fixpoint deltaRows `{GoLib} (c : Columns) (interval : Z)
    (rnew rold : list (string * item)) (keys : list string)
    (rows : list (list string)) : exec (list (list string) * option error) :=
  match keys with
  | [] => Ret (rows, None)
  | k :: keys' =>
      r ← deltaRow c interval rnew rold k;
      match r with
      | inl cells => deltaRows c interval rnew rold keys' (rows ++ [cells])
      | inr err => Ret (rows, Some err)
      end
  end.

Definition RowsFromMapDelta `{GoLib} (s : Samplers) (newrowdata oldrowdata : data)
    (interval : Z) : exec (list (list string) * option error) :=
  let c := columns s in
  let interval := if interval =? 0 then 1 * Second else interval in
  match newrowdata with
  | Map rnew =>
      match oldrowdata with
      | Map rold =>
          '(rows, err) ← deltaRows c interval rnew rold (map fst rnew) [];
          match err with
          | Some e => Ret (rows, Some e)
          | None =>
              rows ← sortRows c rows (sortcolumn s);
              Ret (rows, None)
          end
      | _ => Ret ([], Some ErrNonMap)
      end
  | _ => Ret ([], Some ErrNonMap)
  end.

(** ** Publishing *)

(** [s.Dataview().UpdateTable(s.ColumnNames(), table...)] *)
Definition publish (s : Samplers) (table : list (list string))
    : exec (Dataview * option error) :=
  match dataview s with
  | None => Panic NilDereference
  | Some d => Ret (UpdateTable d (columnnames s) table)
  end.

Definition UpdateTableFromMap `{GoLib} (s : Samplers) (rowdata : data)
    : exec (Dataview * option error) :=
  '(table, _) ← RowsFromMap s rowdata;
  publish s table.


Definition UpdateTableFromMapDelta `{GoLib} (s : Samplers) (newdata olddata : data)
    (interval : Z) : exec (Dataview * option error) :=
  '(table, _) ← RowsFromMapDelta s newdata olddata interval;
  publish s table.

(** ** A library instance for the examples

    [exampleLib] answers as Go does on what the examples below use: the
    verb [%v] on strings, integers, booleans and on floats with an
    integral value below 10^21 (Go prints [1], [-1], [10] for these), and
    [ParseFloat] on strings of one to fifteen decimal digits.  On
    anything else it answers with the format itself, and with the syntax
    error Go gives for ["x"]; no example depends on these answers. *)

Definition f64_to_Z (f : float64) : option Z :=
  match f with
  | S754_zero false => Some 0
  | S754_finite s m e =>
      let z := if s then Z.neg m else Z.pos m in
      let n := if 0 <=? e then Some (z * 2 ^ e)
               else if Z.rem z (2 ^ (- e)) =? 0 then Some (Z.quot z (2 ^ (- e)))
               else None in
      match n with
      | Some n => if Z.abs n <? 10 ^ 21 then Some n else None
      | None => None
      end
  | _ => None
  end.

Fixpoint digitsValue (s : string) (acc : Z) : option Z :=
  match s with
  | EmptyString => Some acc
  | String ch rest =>
      let d := Z.of_N (N_of_ascii ch) - 48 in
      if (0 <=? d) && (d <=? 9) then digitsValue rest (10 * acc + d) else None
  end.

Definition exSprintf (format : string) (v : value) : string :=
  if String.eqb format "%v" then
    match v with
    | VString s => s
    | VInt n => pretty n
    | VBool b => if b then "true" else "false"
    | VFloat64 f => match f64_to_Z f with Some z => pretty z | None => format end
    end
  else format.

Definition exParseFloat (s : string) : float64 * option numError :=
  if (1 <=? len s) && (len s <=? 15) then
    match digitsValue s 0 with
    | Some z => (f64_of_Z z, None)
    | None => (f64_zero, Some ErrSyntax)
    end
  else (f64_zero, Some ErrSyntax).

#[local] Instance exampleLib : GoLib :=
  {| Sprintf := exSprintf; ParseFloat := exParseFloat |}.

(** A sampler over a registry, with a valid and empty dataview. *)
Definition samplerOf (cols : Columns) (names : list string) (sorting : string) : Samplers :=
  {| dataview := Some {| valid := true; table := [] |}; interval := 0;
     columns := cols; columnnames := names; sortcolumn := sorting |}.

(** The sampler a caller sets up from [ColumnInfo], as the plugins do
    with [SetColumns], [SetColumnNames] and [SetSortColumn]. *)
Definition samplerFrom (rowdata : data) : option Samplers :=
  match ColumnInfo rowdata with
  | Ret (cols, names, sorting, None) => Some (samplerOf cols names sorting)
  | _ => None
  end.

(** The registry [ColumnInfo] derives. *)
Definition registryOf (rowdata : data) : Columns :=
  match ColumnInfo rowdata with
  | Ret (cols, _, _, _) => cols
  | Panic _ => ∅
  end.

Definition field (n : string) : structField := {| Name := n; Tag := None |}.
Definition tagged (n tag : string) : structField := {| Name := n; Tag := Some tag |}.

(** The sort mode a [sort=] clause with the non-empty argument [arg]
    stands for. *)
Definition sortMode (arg : string) : sortType :=
  match arg with
  | String "-" _ => if HasSuffix arg "num" then sortDescNum else sortDesc
  | _ => if HasSuffix arg "num" then sortAscNum else sortAsc
  end.

(** ** Notions the statements use *)

(** The clause is a display name: it has no [=]. *)
Definition nameOnly (t : string) : Prop := IndexByte t "=" = -1.

(** The clause is not a [sort=] clause without argument. *)
Definition sortable (t : string) : Prop :=
  String.eqb (slice t 0 (IndexByte t "=")) sorting = true -> IndexByte t "=" + 1 < len t.

(** The tag of the field parses (or there is none). *)
Definition parses (f : structField) : Prop :=
  match Tag f with
  | Some tags => exists column, parseTags (Name f) tags = Ret (column, None)
  | None => True
  end.

(** The tag of the field declares a sort mode. *)
Definition declaresSort (f : structField) : bool :=
  match Tag f with
  | Some tags =>
      match parseTags (Name f) tags with
      | Ret (column, None) => negb (sortType_eqb (sort column) sortNone)
      | _ => false
      end
  | None => false
  end.

(** The display name of the field's descriptor is not ["OMIT"]. *)
Definition visible (c : Columns) (f : structField) : Prop :=
  name (col c (Name f)) <> "OMIT".

#[local] Instance visible_dec c f : Decision (visible c f).
Proof. unfold visible. apply _. Defined.

(** The number of descriptors of the registry that are not ["OMIT"]. *)
Definition nonOmit (c : Columns) : nat :=
  length (filter (fun kv => name kv.2 <> "OMIT") (map_to_list c)).

(** The position of field [j] among the rendered cells of a row. *)
Definition renderedIndex (c : Columns) (t : list structField) (j : nat) : nat :=
  length (filter (visible c) (take j t)).

(** The item is a struct with exactly the fields [rt]. *)
Definition hasShape (rt : list structField) (x : item) : Prop :=
  exists fs, x = Struct fs /\ map fst fs = rt.

(** The cell the delta loop renders for a visible field whose two
    values are of one type. *)
Definition deltaCell `{GoLib} (c : Columns) (interval : Z) (f : structField)
    (newcell oldcell : value) : string :=
  match toFloat newcell, toFloat oldcell with
  | (newfloat, None), (oldfloat, None) =>
      Sprintf (format (col c (Name f)))
        (VFloat64 (f64_div (f64_sub newfloat oldfloat) (Seconds interval)))
  | _, _ => Sprintf (format (col c (Name f))) newcell
  end.

(** Example shapes. *)
Definition shapeABC : list structField := [tagged "A" "OMIT"; tagged "B" "sort=+"; field "C"].
Definition recABC (a b c : string) : item :=
  Struct (combine shapeABC [VString a; VString b; VString c]).

Definition shapeAB : list structField := [tagged "A" "OMIT"; tagged "B" "sort=+"].
Definition recAB (a b : string) : item :=
  Struct (combine shapeAB [VString a; VString b]).

Definition shapeIdCount : list structField := [tagged "ID" "OMIT"; field "Count"].
Definition recIdCount (id count : value) : item := Struct (combine shapeIdCount [id; count]).

Definition shapeCount : list structField := [field "Count"].
Definition recCount (v : value) : item := Struct (combine shapeCount [v]).

(** ** Notions for the further properties *)

(** What the name-only clauses of a tag amount to, read from left to
    right: the display name ([inl]), or the name whose redefinition is
    refused ([inr]). *)
Fixpoint nameResult (fieldname : string) (names : list string) : string + string :=
  match names with
  | [] => inl fieldname
  | n :: rest =>
      match rest with
      | [] => inl n
      | _ :: _ => if String.eqb n fieldname then nameResult fieldname rest else inr n
      end
  end.

(** The clause has an [=] and the text before the first one is [key]. *)
Definition hasKey (key t : string) : bool :=
  negb (IndexByte t "=" =? -1) && String.eqb (slice t 0 (IndexByte t "=")) key.

(** The text after the first [=] of the clause. *)
Definition argOf (t : string) : string := slice t (IndexByte t "=" + 1) (len t).

Definition sortClause (t : string) : option sortType :=
  if hasKey sorting t then Some (sortMode (argOf t)) else None.

Definition formatClause (t : string) : option string :=
  if hasKey format_ t then Some (argOf t) else None.

(** What a clause with an [=] does to the descriptor. *)
Definition keyed (t : string) (cols : columndetails) : columndetails :=
  if hasKey sorting t then set_sort (sortMode (argOf t)) cols
  else if hasKey format_ t then set_format (argOf t) cols
  else cols.

(** The cells direct mode renders for an item: the format of every
    visible field applied to its value, in declaration order. *)
Definition cellsOf `{GoLib} (c : Columns) (x : item) : list string :=
  match x with
  | Struct fs =>
      map (fun fv => Sprintf (format (col c (Name fv.1))) fv.2)
          (filter (fun fv => visible c fv.1) fs)
  | Other => []
  end.

(** The cell of a row that the sorter compares, and whether the row
    has it. *)
Definition cellAt (sortby : Z) (row : list string) : string :=
  default "" (row !! Z.to_nat sortby).

Definition hasCell (sortby : Z) (row : list string) : Prop :=
  0 <= sortby /\ (Z.to_nat sortby < length row)%nat.

#[local] Instance hasCell_dec sortby row : Decision (hasCell sortby row).
Proof. unfold hasCell. apply _. Defined.

(** The order in which a sort mode leaves two rows: for the modes
    without number parsing, the bytewise order of the compared cells. *)
Definition inOrder (sorttype : sortType) (sortby : Z) (r1 r2 : list string) : Prop :=
  match sorttype with
  | sortNone | sortAsc => String.le (cellAt sortby r1) (cellAt sortby r2)
  | sortDesc => String.le (cellAt sortby r2) (cellAt sortby r1)
  | _ => True
  end.

(** ** The xmlrpc package: dataviews on a netprobe

    The methods of [Client] that talk to the netprobe are not code of
    these files: a call to one of them is a [call], answered by the
    netprobe.  A method of the package is an [rpc] computation: it ends
    with its results ([Done]), makes a call and goes on with the answer
    ([Call]), panics ([Crash]) or ends the process through
    [ErrorLogger.Fatal] ([Fatal], taken to exit as [log.Logger.Fatal]
    does).  The logging calls have no part in the results and are left
    out. *)
Module Xmlrpc.

Inductive err :=
| DoesNotExist (method : string)   (* "<method>(): dataview doesn't exist", and the
                                      same for a sampler *)
| Remote (e : string).             (* an error the client hands back *)

Record Sampler := { entityName : string; samplerName : string }.

Definition EntityName (s : Sampler) : string := entityName s.
Definition SamplerName (s : Sampler) : string := samplerName s.

Record Dataview := { sampler : Sampler; dataviewName : string }.

Inductive call : Type -> Type :=
| samplerExists (entity sampler : string) : call (bool * option err)
| viewExists (entity sampler view : string) : call (bool * option err)
| createView (entity sampler view group : string) : call (option err)
| removeView (entity sampler view group : string) : call (option err)
| updateTableCell (entity sampler view cell value : string) : call (option err)
| updateEntireTable (entity sampler view : string) (table : list (list string))
    : call (option err)
| headlineExists (entity sampler view name : string) : call (bool * option err)
| addHeadline (entity sampler view name : string) : call (option err)
| updateHeadline (entity sampler view name value : string) : call (option err)
| removeHeadline (entity sampler view name : string) : call (option err)
| addMessageStream (entity sampler stream message : string) : call (option err).

Inductive rpc (A : Type) : Type :=
| Done (a : A)
| Call {X : Type} (c : call X) (k : X -> rpc A)
| Crash (p : panic)
| Fatal.
Arguments Done {A} a.
Arguments Call {A X} c k.
Arguments Crash {A} p.
Arguments Fatal {A}.

Fixpoint rpc_bind {A B : Type} (k : A -> rpc B) (m : rpc A) : rpc B :=
  match m with
  | Done a => k a
  | Call c k' => Call c (fun x => rpc_bind k (k' x))
  | Crash p => Crash p
  | Fatal => Fatal
  end.

#[global] Instance rpc_mbind : MBind rpc := @rpc_bind.

Definition ask {X : Type} (c : call X) : rpc X := Call c Done.

Definition liftExec {A : Type} (m : exec A) : rpc A :=
  match m with
  | Ret a => Done a
  | Panic p => Crash p
  end.

(** A netprobe answers every call, from a state of its own. *)
Record netprobe := { world : Type; answer : forall X : Type, call X -> world -> X * world }.

Inductive outcome (A : Type) :=
| Returned (a : A)
| Panicked (p : panic)
| Exited.
Arguments Returned {A} a.
Arguments Panicked {A} p.
Arguments Exited {A}.

(** A call as it shows in the list of the calls made. *)
Definition sent : Type := { X : Type & call X }.
Definition sentCall {X : Type} (c : call X) : sent := existT X c.

(** Running a method against a netprobe: the outcome, the netprobe's
    state afterwards and the calls made, in order. *)
Fixpoint run {A : Type} (np : netprobe) (m : rpc A) (w : world np)
    : outcome A * world np * list sent :=
  match m with
  | Done a => (Returned a, w, [])
  | Call c k =>
      let '(x, w1) := answer np _ c w in
      let '(o, w2, calls) := run np (k x) w1 in
      (o, w2, sentCall c :: calls)
  | Crash p => (Panicked p, w, [])
  | Fatal => (Exited, w, [])
  end.

(** [strings.SplitN(s, sep, 2)] for a one-byte separator: [cut] finds
    the first separator. *)
Fixpoint cut (s : string) (sep : ascii) : option (string * string) :=
  match s with
  | EmptyString => None
  | String ch rest =>
      if Ascii.eqb ch sep then Some (EmptyString, rest)
      else match cut rest sep with
           | Some (a, b) => Some (String ch a, b)
           | None => None
           end
  end.

Definition SplitN2 (s : string) (sep : ascii) : list string :=
  match cut s sep with
  | Some (a, b) => [a; b]
  | None => [s]
  end.

Definition DataviewName (d : Dataview) : string := dataviewName d.

(** [return s[1], s[0]] *)
Definition DataviewGroupNames (d : Dataview) : exec (string * string) :=
  let s := SplitN2 (dataviewName d) "-" in
  match s !! 1%nat, s !! 0%nat with
  | Some s1, Some s0 => Ret (s1, s0)
  | _, _ => Panic IndexOutOfRange
  end.

Definition SetDataviewName (d : Dataview) (dataview groupname : string) : Dataview :=
  {| sampler := sampler d; dataviewName := (groupname ++ "-" ++ dataview)%string |}.

Definition Sampler_IsValid (s : Sampler) : rpc bool :=
  '(res, e) ← ask (samplerExists (EntityName s) (SamplerName s));
  match e with
  | Some _ => Done false
  | None => Done res
  end.

Definition IsValid (d : Dataview) : rpc bool :=
  '(res, e) ← ask (viewExists (EntityName (sampler d)) (SamplerName (sampler d))
                       (DataviewName d));
  match e with
  | Some _ => Done false
  | None => Done res
  end.

Definition Close (d : Dataview) : rpc (option err) :=
  ok ← IsValid d;
  if negb ok then Done None
  else
    '(view, group) ← liftExec (DataviewGroupNames d);
    ask (removeView (EntityName (sampler d)) (SamplerName (sampler d)) view group).

Definition UpdateCell `{GoLib} (d : Dataview) (rowname columnname : string)
    (v : value) : rpc (option err) :=
  ok ← IsValid d;
  if negb ok then Done (Some (DoesNotExist "UpdateCell"))
  else
    let cellname := (rowname ++ "." ++ columnname)%string in
    let s := Sprintf "%v" v in
    ask (updateTableCell (EntityName (sampler d)) (SamplerName (sampler d))
           (DataviewName d) cellname s).

Definition UpdateTable (d : Dataview) (columns : list string)
    (values : list (list string)) : rpc (option err) :=
  ok ← IsValid d;
  if negb ok then Done (Some (DoesNotExist "UpdateTable"))
  else
    let table := [columns] ++ values in
    ask (updateEntireTable (EntityName (sampler d)) (SamplerName (sampler d))
           (DataviewName d) table).

Definition Headline `{GoLib} (d : Dataview) (name : string) (args : list string)
    : rpc (option err) :=
  let e := EntityName (sampler d) in
  let sm := SamplerName (sampler d) in
  ok ← IsValid d;
  if negb ok then Done (Some (DoesNotExist "Headline"))
  else
    '(res, er) ← ask (headlineExists e sm (DataviewName d) name);
    match er with
    | Some x => Done (Some x)
    | None =>
        er ← (if negb res then ask (addHeadline e sm (DataviewName d) name)
              else Done None);
        match er with
        | Some x => Done (Some x)
        | None =>
            match args with
            | a :: _ =>
                let s := Sprintf "%v" (VString a) in
                ask (updateHeadline e sm (DataviewName d) name s)
            | [] => Done None
            end
        end
    end.

Definition RemoveHeadline (d : Dataview) (name : string) : rpc (option err) :=
  let e := EntityName (sampler d) in
  let sm := SamplerName (sampler d) in
  '(res, er) ← ask (headlineExists e sm (DataviewName d) name);
  if negb res then Done er
  else ask (removeHeadline e sm (DataviewName d) name).

Definition CreateDataview (s : Sampler) (dataviewName groupName : string)
    : rpc (Dataview * option err) :=
  let d := {| sampler := s; dataviewName := (groupName ++ "-" ++ dataviewName)%string |} in
  er ← ask (createView (EntityName s) (SamplerName s) dataviewName groupName);
  Done (d, er).

Definition NewDataview (s : Sampler) (dataviewName groupName : string)
    (args : list (list string)) : rpc (option Dataview * option err) :=
  ok ← Sampler_IsValid s;
  if negb ok then Done (None, Some (DoesNotExist "NewDataview"))
  else
    _ ← ask (removeView (EntityName s) (SamplerName s) dataviewName groupName);
    '(d, er) ← CreateDataview s dataviewName groupName;
    match er with
    | Some _ => Fatal
    | None =>
        match args with
        | columns :: values =>
            _ ← UpdateTable d columns values;
            Done (Some d, None)
        | [] => Done (Some d, None)
        end
    end.

Definition WriteMessage (s : Sampler) (streamname message : string) : rpc (option err) :=
  ask (addMessageStream (EntityName s) (SamplerName s) streamname message).

End Xmlrpc.

(** ** The streams package *)
Module Streams.

Inductive err :=
| StreamNameNotSet                 (* "streamname not set" *)
| FromXmlrpc (e : Xmlrpc.err).

Record Stream := { Sampler : Xmlrpc.Sampler; name : string }.

Definition SetStreamName (s : Stream) (n : string) : Stream :=
  {| Sampler := Sampler s; name := n |}.

(** [Write] and [WriteString]; [data] holds the bytes in both. *)
Definition Write (s : Stream) (data : string) : Xmlrpc.rpc (Z * option err) :=
  if String.eqb (name s) "" then Xmlrpc.Done (0, Some StreamNameNotSet)
  else
    er ← Xmlrpc.WriteMessage (Sampler s) (name s) data;
    match er with
    | Some x => Xmlrpc.Done (0, Some (FromXmlrpc x))
    | None => Xmlrpc.Done (len data, None)
    end.

Definition WriteString (s : Stream) (data : string) : Xmlrpc.rpc (Z * option err) :=
  if String.eqb (name s) "" then Xmlrpc.Done (0, Some StreamNameNotSet)
  else
    er ← Xmlrpc.WriteMessage (Sampler s) (name s) data;
    match er with
    | Some x => Xmlrpc.Done (0, Some (FromXmlrpc x))
    | None => Xmlrpc.Done (len data, None)
    end.

End Streams.

(** A float that is neither an infinity nor a NaN. *)
Definition finite (x : float64) : bool :=
  match x with
  | S754_finite _ _ _ | S754_zero _ => true
  | _ => false
  end.

(** ** Reading the netprobe's answers *)

(** Whether the answer to [viewExists] or [samplerExists] counts as
    "exists": without error, and true. *)
Definition exists_ (r : bool * option Xmlrpc.err) : bool :=
  match r with
  | (res, None) => res
  | (_, Some _) => false
  end.

(** The calls of a dataview [d], with the names the methods pass. *)
Definition askViewExists (d : Xmlrpc.Dataview) : Xmlrpc.call (bool * option Xmlrpc.err) :=
  Xmlrpc.viewExists (Xmlrpc.entityName (Xmlrpc.sampler d))
    (Xmlrpc.samplerName (Xmlrpc.sampler d)) (Xmlrpc.dataviewName d).

(** A netprobe for the examples: its state is the list of the views it
    holds, as (group, view); [createView] adds one and fails on a view it
    holds, [removeView] drops one and fails on a view it does not hold,
    [viewExists] looks the aggregated name up, every sampler exists, a
    table or a message is accepted, no headline exists. *)
Definition holds (views : list (string * string)) (aggregated : string) : bool :=
  existsb (fun gv => String.eqb (fst gv ++ "-" ++ snd gv) aggregated) views.

Definition sameView (group view : string) (gv : string * string) : bool :=
  String.eqb (fst gv) group && String.eqb (snd gv) view.

Definition exampleAnswer (X : Type) (c : Xmlrpc.call X) (views : list (string * string))
    : X * list (string * string) :=
  match c in Xmlrpc.call X return X * list (string * string) with
  | Xmlrpc.samplerExists _ _ => ((true, None), views)
  | Xmlrpc.viewExists _ _ v => ((holds views v, None), views)
  | Xmlrpc.createView _ _ v g =>
      if existsb (sameView g v) views then (Some (Xmlrpc.Remote "exists"), views)
      else (None, (g, v) :: views)
  | Xmlrpc.removeView _ _ v g =>
      if existsb (sameView g v) views
      then (None, List.filter (fun gv => negb (sameView g v gv)) views)
      else (Some (Xmlrpc.Remote "no such view"), views)
  | Xmlrpc.updateTableCell _ _ _ _ _ => (None, views)
  | Xmlrpc.updateEntireTable _ _ _ _ => (None, views)
  | Xmlrpc.headlineExists _ _ _ _ => ((false, None), views)
  | Xmlrpc.addHeadline _ _ _ _ => (None, views)
  | Xmlrpc.updateHeadline _ _ _ _ _ => (None, views)
  | Xmlrpc.removeHeadline _ _ _ _ => (None, views)
  | Xmlrpc.addMessageStream _ _ _ _ => (None, views)
  end.

Definition exampleNetprobe : Xmlrpc.netprobe :=
  {| Xmlrpc.world := list (string * string); Xmlrpc.answer := exampleAnswer |}.

Definition exampleSampler : Xmlrpc.Sampler :=
  {| Xmlrpc.entityName := "host"; Xmlrpc.samplerName := "cpu" |}.

(** * Tag parser *)

Lemma type_eqb_eq a b : type_eqb a b = true <-> a = b.
Proof. destruct a, b; simpl; split; congruence. Qed.

Lemma exampleLib_zeroOnSyntaxError : zeroOnSyntaxError exampleLib.
Proof.
  intros s f. cbn. unfold exParseFloat. destruct (_ && _); [|congruence].
  destruct (digitsValue _ _); congruence.
Qed.

Lemma substring_all s : substring 0 (String.length s) s = s.
Proof. induction s as [|a s IH]; simpl; [reflexivity | now rewrite IH]. Qed.

Lemma slice_from5 a b c d e ch rest :
  let t := String a (String b (String c (String d (String e (String ch rest))))) in
  slice t 5 (len t) = String ch rest.
Proof.
  intros t. unfold slice, len, t.
  replace (Z.to_nat 5) with 5%nat by reflexivity.
  replace (Z.to_nat _) with (String.length (String ch rest)).
  - cbn [substring]. apply (substring_all (String ch rest)).
  - cbn [String.length]. lia.
Qed.

(** A [sort=] clause with a non-empty argument sets the mode that
    [sortMode] describes: [-] first gives descending, anything else
    ascending, and the suffix [num] the numeric variant. *)
Lemma parseSort_nonempty ch rest cols :
  parseSort (String "s" (String "o" (String "r" (String "t" (String "=" (String ch rest)))))) 4 cols
  = Ret (set_sort (sortMode (String ch rest)) cols).
Proof.
  unfold parseSort.
  replace (4 + 1) with 5 by reflexivity.
  rewrite slice_from5.
  unfold byteAt, len. cbn [String.length].
  replace (5 <? 0) with false by reflexivity.
  destruct (Z.leb_spec (Z.of_nat (S (S (S (S (S (S (String.length rest)))))))) 5) as [Hle|_]; [lia|].
  cbn [orb]. replace (Z.to_nat 5) with 5%nat by reflexivity. cbn [String.get].
  cbn [mbind exec_bind].
  unfold sortMode.
  destruct (Ascii.eqb_spec ch "-") as [->|Hne].
  - cbn. destruct (HasSuffix _ _); reflexivity.
  - assert (Hm : forall X (x y : X), match String ch rest with String "-" _ => x | _ => y end = y).
    { intros X x y. destruct ch as [[] [] [] [] [] [] [] []]; try reflexivity. now destruct Hne. }
    rewrite Hm. cbn. destruct (HasSuffix _ _); reflexivity.
Qed.

Example parseTags_sort_desc_num fieldname :
  parseTags fieldname "sort=-num"
  = Ret ({| tags := "sort=-num"; name := fieldname; number := 0; format := "%v";
            convfunc := None; sort := sortDescNum |}, None).
Proof. reflexivity. Qed.

(** C6: the tag parser maps [sort=+], [sort=-], [sort=num], [sort=-num]
    as the clause grammar says, but the clause ["sort="] alone, which the
    grammar [sort=[+|-][num]] admits and the specification maps to
    Ascending, makes [parseTags] read the byte after the [=] out of
    range: for every field it panics instead of returning a descriptor. *)
Theorem parseTags_sort_alone_panics fieldname :
  parseTags fieldname "sort=" = Panic IndexOutOfRange.
Proof. reflexivity. Qed.

Lemma IndexByte_ge s c : -1 <= IndexByte s c.
Proof.
  induction s as [|ch s IH]; cbn; [lia|].
  destruct (Ascii.eqb ch c); [lia|]. destruct (Z.eqb_spec (IndexByte s c) (-1)); lia.
Qed.

Lemma IndexByte_lt s c : IndexByte s c < len s.
Proof.
  unfold len. induction s as [|ch s IH]; cbn [IndexByte String.length]; [lia|].
  destruct (Ascii.eqb ch c); [lia|]. destruct (Z.eqb_spec (IndexByte s c) (-1)); lia.
Qed.

Lemma IndexByte_absent_cons ch s c :
  IndexByte (String ch s) c = -1 -> Ascii.eqb ch c = false /\ IndexByte s c = -1.
Proof.
  cbn. destruct (Ascii.eqb ch c); [discriminate|]. intros H. split; [reflexivity|].
  destruct (Z.eqb_spec (IndexByte s c) (-1)) as [E|E]; [exact E|].
  pose proof (IndexByte_ge s c). lia.
Qed.

Lemma Split_no_sep s sep : IndexByte s sep = -1 -> Split s sep = [s].
Proof.
  induction s as [|ch s IH]; intros H; [reflexivity|].
  apply IndexByte_absent_cons in H as [Hch Hs]. cbn [Split]. now rewrite Hch, IH.
Qed.

Lemma Split_app_sep a b sep :
  IndexByte a sep = -1 -> Split (a ++ String sep b)%string sep = a :: Split b sep.
Proof.
  induction a as [|ch a IH]; intros H.
  - simpl. now rewrite Ascii.eqb_refl.
  - apply IndexByte_absent_cons in H as [Hch Ha]. simpl. now rewrite Hch, IH.
Qed.

(** Two name-only clauses pass unnoticed when the first one repeats the
    field name: the test for "already defined" compares the name with
    its default. *)
Lemma parseTags_loop_second_name fieldname t cols :
  IndexByte fieldname "=" = -1 -> IndexByte t "=" = -1 -> name cols = fieldname ->
  parseTags_loop fieldname [fieldname; t] cols = Ret (set_name t (set_name fieldname cols), None).
Proof.
  intros H1 H2 Hn. cbn [parseTags_loop]. rewrite H1, H2, Hn. cbn.
  rewrite String.eqb_refl. reflexivity.
Qed.

(** C7: a tag with two name-only clauses must be refused, but for every
    field the tag made of the field's own name and a second name is
    accepted, and the second name becomes the display name. *)
Theorem parseTags_two_names_accepted fieldname second :
  IndexByte fieldname "," = -1 -> IndexByte fieldname "=" = -1 ->
  IndexByte second "," = -1 -> IndexByte second "=" = -1 ->
  parseTags fieldname (fieldname ++ String "," second)%string
  = Ret ({| tags := (fieldname ++ String "," second)%string; name := second; number := 0;
            format := "%v"; convfunc := None; sort := sortNone |}, None).
Proof.
  intros Hf1 Hf2 Hs1 Hs2. unfold parseTags.
  rewrite (Split_app_sep _ _ _ Hf1), (Split_no_sep _ _ Hs1).
  now rewrite parseTags_loop_second_name.
Qed.

Lemma parseTags_two_names_accepted_witness :
  parseTags "A" "A,B"
  = Ret ({| tags := "A,B"; name := "B"; number := 0; format := "%v";
            convfunc := None; sort := sortNone |}, None).
Proof.
  apply (parseTags_two_names_accepted "A" "B"); reflexivity.
Defined.

(** Two name clauses of which the first differs from the field name are
    refused. *)
Example parseTags_two_names_refused :
  exists cols, parseTags "A" "X,B" = Ret (cols, Some (ErrNameRedefined "X")).
Proof. eexists. reflexivity. Qed.

(** The other clauses are handled as the grammar says.  A clause is
    [sortable] unless it is a [sort=] clause without argument. *)
Lemma byteAt_in_range s i : 0 <= i < len s -> exists ch, byteAt s i = Ret ch.
Proof.
  intros [H0 Hlt]. unfold byteAt.
  destruct (Z.ltb_spec i 0) as [?|_]; [lia|].
  destruct (Z.leb_spec (len s) i) as [?|_]; [lia|]. cbn [orb].
  assert (Hget : forall (t : string) (n : nat),
             (n < String.length t)%nat -> exists ch, String.get n t = Some ch).
  { induction t as [|a t IHt]; intros n Hn; cbn in Hn; [lia|].
    destruct n as [|n]; cbn; [eauto|]. apply IHt. lia. }
  destruct (Hget s (Z.to_nat i)) as [ch ->]; [unfold len in Hlt; lia | eauto].
Qed.

Lemma parseSort_name t i cols cols' :
  parseSort t i cols = Ret cols' -> name cols' = name cols.
Proof.
  unfold parseSort. destruct (byteAt t (i + 1)) as [ch|]; cbn; [|discriminate].
  intros H. inversion H; subst.
  destruct (Ascii.eqb ch "-"); destruct (HasSuffix _ _); cbn; reflexivity.
Qed.

Lemma parseTags_loop_no_name fieldname clauses : forall cols,
  Forall sortable clauses -> Forall (fun t => IndexByte t "=" <> -1) clauses ->
  exists cols', parseTags_loop fieldname clauses cols = Ret (cols', None)
                /\ name cols' = name cols.
Proof.
  induction clauses as [|t rest IH]; intros cols Hs Hn; [cbn; eauto|].
  inversion Hs as [|? ? Ht Hrest]; inversion Hn as [|? ? Hi Hnrest]; subst.
  cbn [parseTags_loop]. destruct (Z.eqb_spec (IndexByte t "=") (-1)) as [E|_]; [contradiction|].
  destruct (String.eqb (slice t 0 (IndexByte t "=")) sorting) eqn:Esort.
  - destruct (byteAt_in_range t (IndexByte t "=" + 1)) as [ch Hch].
    { unfold sortable in Ht. rewrite Esort in Ht. pose proof (IndexByte_ge t "="). lia. }
    destruct (parseSort t (IndexByte t "=") cols) as [cols1|] eqn:Hp.
    + cbn. destruct (IH cols1 Hrest Hnrest) as (cols' & -> & Hname).
      exists cols'. split; [reflexivity|]. rewrite Hname. eapply parseSort_name, Hp.
    + unfold parseSort in Hp. rewrite Hch in Hp. discriminate.
  - destruct (String.eqb _ format_);
      match goal with
      | |- exists _, parseTags_loop _ _ ?c = _ /\ _ =>
          destruct (IH c Hrest Hnrest) as (cols' & -> & Hname)
      end;
      exists cols'; (split; [reflexivity | exact Hname]).
Qed.

(** A tag with at most one name-only clause and no [sort=] clause
    without argument parses; the display name is that clause, or the
    field name when there is none. *)
Lemma parseTags_loop_one_name fieldname clauses : forall cols,
  Forall sortable clauses ->
  (length (filter nameOnly clauses) <= 1)%nat ->
  name cols = fieldname ->
  exists cols', parseTags_loop fieldname clauses cols = Ret (cols', None)
    /\ name cols' = match filter nameOnly clauses with
                    | [] => fieldname
                    | t :: _ => t
                    end.
Proof.
  induction clauses as [|t rest IH]; intros cols Hs Hone Hname; [cbn; eauto|].
  apply Forall_cons in Hs as [Ht Hrest].
  cbn [parseTags_loop]. destruct (Z.eqb_spec (IndexByte t "=") (-1)) as [E|E].
  - rewrite (filter_cons_True nameOnly _ _ E) in *. cbn [length] in Hone.
    rewrite Hname, String.eqb_refl. cbn [negb].
    destruct (parseTags_loop_no_name fieldname rest (set_name t cols) Hrest)
      as (cols' & -> & Hn).
    + apply Forall_forall. intros u Hu Eu.
      assert (Hin : u ∈ filter nameOnly rest)
        by now apply list_elem_of_filter.
      destruct (filter _ rest); [now apply not_elem_of_nil in Hin | cbn in Hone; lia].
    + exists cols'. split; [reflexivity | exact Hn].
  - rewrite (filter_cons_False nameOnly _ _ E) in *.
    destruct (String.eqb (slice t 0 (IndexByte t "=")) sorting) eqn:Esort.
    + destruct (byteAt_in_range t (IndexByte t "=" + 1)) as [ch Hch].
      { unfold sortable in Ht. rewrite Esort in Ht. pose proof (IndexByte_ge t "="). lia. }
      destruct (parseSort t (IndexByte t "=") cols) as [cols1|] eqn:Hp.
      * cbn. apply IH; [exact Hrest | exact Hone|].
        rewrite <- Hname. eapply parseSort_name, Hp.
      * unfold parseSort in Hp. rewrite Hch in Hp. discriminate.
    + destruct (String.eqb _ format_); now apply IH.
Qed.

(** * Schema derivation *)

(** The designated sort column after the loop: the last field that
    declares a sort mode, or the value the loop started from. *)
Lemma ColumnInfo_loop_sorting fields : forall i cols names sorting,
  Forall parses fields ->
  exists cols' names',
    ColumnInfo_loop fields i cols names sorting
    = Ret (cols', names',
           fold_left (fun acc f => if declaresSort f then Name f else acc) fields sorting,
           None).
Proof.
  induction fields as [|f rest IH]; intros i cols names sorting Hp.
  - eexists _, _. reflexivity.
  - inversion Hp as [|? ? Hf Hrest]; subst.
    cbn [ColumnInfo_loop fold_left].
    assert (Hfc : exists column, fieldColumn f i = Ret (column, declaresSort f, None)).
    { clear IH Hp Hrest. unfold fieldColumn, declaresSort, parses in *.
      destruct (Tag f) as [tg|]; [|eauto].
      destruct Hf as [column Hc]. rewrite Hc. cbn. eauto. }
    destruct Hfc as [column ->]. cbn.
    destruct (addColumn (Name f) column cols names) as [cols1 names1]. apply IH, Hrest.
Qed.

Lemma fold_left_last_sort pre f post sorting :
  declaresSort f = true ->
  Forall (fun g => declaresSort g = false) post ->
  fold_left (fun acc g => if declaresSort g then Name g else acc) (pre ++ f :: post) sorting
  = Name f.
Proof.
  intros Hf Hpost. rewrite fold_left_app. cbn [fold_left]. rewrite Hf.
  generalize (Name f) as acc. clear Hf.
  induction Hpost as [|g post Hg _ IH]; intros acc; cbn [fold_left]; [reflexivity|].
  rewrite Hg. apply IH.
Qed.

(** C10: when the tags of a struct parse, [ColumnInfo] returns without
    error whatever number of fields declare a sort mode, and the
    designated sort column is the last field that declares one: the
    fields before it, sorted or not, do not matter. *)
Theorem ColumnInfo_last_sort_wins fs pre f post :
  map fst fs = pre ++ f :: post ->
  Forall parses (map fst fs) ->
  declaresSort f = true ->
  Forall (fun g => declaresSort g = false) post ->
  exists cols names, ColumnInfo (Item (Struct fs)) = Ret (cols, names, Name f, None).
Proof.
  intros Hfs Hp Hf Hpost. unfold ColumnInfo.
  destruct fs as [|[f0 v0] fs'].
  - destruct pre; discriminate.
  - destruct (ColumnInfo_loop_sorting (map fst ((f0, v0) :: fs')) 0 ∅ [] (Name f0) Hp)
      as (cols & names & Heq).
    exists cols, names. rewrite Heq, Hfs.
    now rewrite (fold_left_last_sort pre f post).
Qed.

Lemma ColumnInfo_last_sort_wins_witness :
  exists cols names,
    ColumnInfo (Item (Struct [(tagged "A" "sort=+", VInt 1);
                              (tagged "B" "sort=-num", VInt 2);
                              (field "C", VInt 3)]))
    = Ret (cols, names, "B", None).
Proof.
  apply (ColumnInfo_last_sort_wins _ [tagged "A" "sort=+"] (tagged "B" "sort=-num") [field "C"]).
  - reflexivity.
  - repeat constructor; cbn; eexists; reflexivity.
  - reflexivity.
  - repeat constructor.
Defined.

(** * Row sorter *)

Section Sorting.
Context {A : Type} (lessf : A -> A -> exec bool).

Lemma insertBack_perm x rp r :
  insertBack lessf x rp = Ret r -> Permutation (x :: rp) r.
Proof.
  revert r. induction rp as [|y ys IH]; intros r H; cbn in H.
  - inversion H. reflexivity.
  - destruct (lessf x y) as [[]|]; cbn in H; try discriminate.
    + destruct (insertBack lessf x ys) as [r'|] eqn:E; cbn in H; try discriminate.
      inversion H; subst. rewrite perm_swap. constructor. now apply IH.
    + inversion H. reflexivity.
Qed.

Lemma insertionSort_loop_perm rest : forall rp l',
  insertionSort_loop lessf rp rest = Ret l' -> Permutation (rp ++ rest) l'.
Proof.
  induction rest as [|x rest IH]; intros rp l' H; cbn in H.
  - inversion H. rewrite app_nil_r. apply Permutation_rev.
  - destruct (insertBack lessf x rp) as [p|] eqn:E; cbn in H; try discriminate.
    apply insertBack_perm in E. apply IH in H.
    rewrite <- H, <- E. symmetry. apply Permutation_middle.
Qed.

(** What [sort.Slice] returns is a reordering of the slice. *)
Lemma sort_Slice_perm l l' : sort_Slice lessf l = Ret l' -> Permutation l l'.
Proof. apply (insertionSort_loop_perm l []). Qed.

Lemma insertBack_returns x rp :
  (forall y, In y rp -> exists b, lessf x y = Ret b) ->
  exists r, insertBack lessf x rp = Ret r.
Proof.
  induction rp as [|y ys IH]; intros H; cbn.
  - eauto.
  - destruct (H y (or_introl eq_refl)) as [b ->]. cbn. destruct b; [|eauto].
    destruct IH as [r ->]; [intros; apply H; now right|]. cbn. eauto.
Qed.

Lemma insertionSort_loop_returns rest : forall rp,
  (forall x y, In x (rp ++ rest) -> In y (rp ++ rest) -> exists b, lessf x y = Ret b) ->
  exists l', insertionSort_loop lessf rp rest = Ret l'.
Proof.
  induction rest as [|x rest IH]; intros rp H; cbn.
  - eauto.
  - destruct (insertBack_returns x rp) as [p Hp].
    { intros y Hy. apply H; rewrite in_app_iff; [right; now left | now left]. }
    rewrite Hp. cbn. apply IH. intros a b Ha Hb.
    apply insertBack_perm in Hp.
    assert (Hq : Permutation (p ++ rest) (rp ++ x :: rest)).
    { rewrite <- Hp. apply Permutation_middle. }
    apply H; eapply Permutation_in; eauto.
Qed.

(** [sort.Slice] returns when the comparison does on the elements. *)
Lemma sort_Slice_returns l :
  (forall x y, In x l -> In y l -> exists b, lessf x y = Ret b) ->
  exists l', sort_Slice lessf l = Ret l'.
Proof. apply (insertionSort_loop_returns l []). Qed.
End Sorting.

Section SortRows.
Context {L : GoLib}.

Lemma cell_in_range row sortby :
  0 <= sortby -> (Z.to_nat sortby < length row)%nat -> exists s, cell row sortby = Ret s.
Proof.
  intros H0 Hlt. unfold cell.
  destruct (Z.ltb_spec sortby 0) as [?|_]; [lia|].
  destruct (lookup_lt_is_Some_2 row (Z.to_nat sortby) Hlt) as [s ->]. eauto.
Qed.

Lemma cell_single s : cell [s] 0 = Ret s.
Proof. reflexivity. Qed.

Lemma cell_out_of_range row sortby :
  (length row <= Z.to_nat sortby)%nat -> cell row sortby = Panic IndexOutOfRange.
Proof.
  intros Hge. unfold cell. destruct (sortby <? 0); [reflexivity|].
  now rewrite (lookup_ge_None_2 row (Z.to_nat sortby)).
Qed.

Lemma less_returns sorttype sortby ra rb :
  0 <= sortby -> (Z.to_nat sortby < length ra)%nat -> (Z.to_nat sortby < length rb)%nat ->
  exists b, less sorttype sortby ra rb = Ret b.
Proof.
  intros H0 Ha Hb. unfold less.
  destruct (cell_in_range ra sortby H0 Ha) as [sa ->].
  destruct (cell_in_range rb sortby H0 Hb) as [sb ->]. cbn.
  destruct sorttype; try destruct (f64_eqb _ _); eauto.
Qed.

(** What the row sorter returns is a reordering of the rows. *)
Lemma sortRows_perm c rows sortcol rows' :
  sortRows c rows sortcol = Ret rows' -> Permutation rows rows'.
Proof. apply sort_Slice_perm. Qed.

(** The row sorter returns when every row has a cell at the index the
    registry stores for the sort column. *)
Lemma sortRows_returns c rows sortcol :
  0 <= number (col c sortcol) ->
  (forall row, In row rows -> (Z.to_nat (number (col c sortcol)) < length row)%nat) ->
  exists rows', sortRows c rows sortcol = Ret rows' /\ Permutation rows rows'.
Proof.
  intros H0 Hrows.
  destruct (sort_Slice_returns (less (sort (col c sortcol)) (number (col c sortcol))) rows)
    as [rows' Hs].
  - intros x y Hx Hy. apply less_returns; auto.
  - exists rows'. split; [exact Hs | now apply sortRows_perm in Hs].
Qed.

(** With two rows or more, a second row without a cell at that index
    makes the first comparison panic. *)
Lemma sortRows_short_row c r1 r2 rows sortcol :
  (length r2 <= Z.to_nat (number (col c sortcol)))%nat ->
  sortRows c (r1 :: r2 :: rows) sortcol = Panic IndexOutOfRange.
Proof.
  intros H2. unfold sortRows, sort_Slice.
  cbn [insertionSort_loop insertBack mbind exec_bind].
  unfold less. now rewrite (cell_out_of_range r2 _ H2).
Qed.

(** In the numeric modes a cell that [ParseFloat] refuses with a syntax
    error is compared as [0.0]; on equal numbers the strings decide. *)
Lemma less_numeric_syntax_error sortby ra rb sa sb fa :
  zeroOnSyntaxError L ->
  cell ra sortby = Ret sa -> cell rb sortby = Ret sb ->
  ParseFloat sa = (fa, Some ErrSyntax) ->
  less sortAscNum sortby ra rb
  = Ret (if f64_eqb f64_zero (fst (ParseFloat sb)) then str_ltb sa sb
         else f64_ltb f64_zero (fst (ParseFloat sb)))
  /\ less sortDescNum sortby ra rb
  = Ret (if f64_eqb f64_zero (fst (ParseFloat sb)) then str_geb sa sb
         else f64_geb f64_zero (fst (ParseFloat sb))).
Proof.
  intros HL Ha Hb Hs. unfold less. rewrite Ha, Hb. cbn.
  rewrite Hs. cbn [fst]. rewrite (HL sa fa Hs).
  split; destruct (f64_eqb _ _); reflexivity.
Qed.

(** Descending numeric order on the cells 10, 2, x keeps them as they
    are, for every library that parses them to 10, 2 and 0. *)
Lemma sortRows_desc_num_example c sortcol :
  sort (col c sortcol) = sortDescNum -> number (col c sortcol) = 0 ->
  fst (ParseFloat "10") = f64_of_Z 10 -> fst (ParseFloat "2") = f64_of_Z 2 ->
  fst (ParseFloat "x") = f64_zero ->
  sortRows c [["10"]; ["2"]; ["x"]] sortcol = Ret [["10"]; ["2"]; ["x"]].
Proof.
  intros Hs Hn H10 H2 Hx. unfold sortRows, sort_Slice. rewrite Hs, Hn.
  assert (E1 : less sortDescNum 0 ["2"] ["10"] = Ret false).
  { unfold less. rewrite !cell_single. cbn [mbind exec_bind]. now rewrite H10, H2. }
  assert (E2 : less sortDescNum 0 ["x"] ["2"] = Ret false).
  { unfold less. rewrite !cell_single. cbn [mbind exec_bind]. now rewrite H2, Hx. }
  cbn [insertionSort_loop insertBack mbind exec_bind]. rewrite E1.
  cbn [insertionSort_loop insertBack mbind exec_bind]. rewrite E2.
  reflexivity.
Qed.
End SortRows.

Example sortRows_desc_num_exampleLib :
  sortRows (<["v" := set_sort sortDescNum zeroColumn]> ∅) [["10"]; ["2"]; ["x"]] "v"
  = Ret [["10"]; ["2"]; ["x"]].
Proof. now apply sortRows_desc_num_example. Qed.

(** C1: the row sorter must compare the cell displayed under the
    designated sort column.  For the struct [A] (OMIT), [B] (sort=+), [C]
    the displayed columns are [B; C] and the designated sort column is
    [B], but the registry stores for [B] its field index 1, and the rows
    are compared at rendered cell 1, which is [C]: in whichever order
    the map yields its keys, the rows come out ordered by [C] and
    descending in [B]. *)
Theorem sortRows_compares_at_field_index :
  exists s,
    samplerFrom (Item (recABC "" "" "")) = Some s /\
    columnnames s = ["B"; "C"] /\ sortcolumn s = "B" /\
    sort (col (columns s) "B") = sortAsc /\ number (col (columns s) "B") = 1 /\
    RowsFromMap s (Map [("k1", recABC "x" "a" "z"); ("k2", recABC "y" "b" "y")])
    = Ret ([["b"; "y"]; ["a"; "z"]], None) /\
    RowsFromMap s (Map [("k2", recABC "y" "b" "y"); ("k1", recABC "x" "a" "z")])
    = Ret ([["b"; "y"]; ["a"; "z"]], None).
Proof.
  eexists. split; [reflexivity|]. repeat split; vm_compute; reflexivity.
Qed.

(** C9: the row sorter must never fail.  For the struct [A] (OMIT), [B]
    (sort=+) every built row has the one cell of [B], the registry stores
    the index 1 for [B], and with two rows the first comparison reads
    cell 1 of a row of length 1: [RowsFromMap] panics. *)
Theorem sortRows_panics_behind_omit :
  exists s,
    samplerFrom (Item (recAB "" "")) = Some s /\
    number (col (columns s) (sortcolumn s)) = 1 /\
    RowsFromMap s (Map [("k1", recAB "x" "a"); ("k2", recAB "y" "b")])
    = Panic IndexOutOfRange.
Proof.
  eexists. split; [reflexivity|]. split; vm_compute; reflexivity.
Qed.

(** * Rows *)

Section Rows.
Context {L : GoLib}.
Implicit Types (c : Columns) (t : list structField) (cells row : list string).

Lemma omit_test c f :
  String.eqb (name (col c (Name f))) "OMIT" = bool_decide (~ visible c f).
Proof.
  unfold visible. destruct (String.eqb_spec (name (col c (Name f))) "OMIT") as [E|E].
  - symmetry. apply bool_decide_eq_true. tauto.
  - symmetry. apply bool_decide_eq_false. tauto.
Qed.

Lemma omit_test_visible c f :
  visible c f -> String.eqb (name (col c (Name f))) "OMIT" = false.
Proof. intros H. rewrite omit_test. apply bool_decide_eq_false. tauto. Qed.

Lemma omit_test_omitted c f :
  ~ visible c f -> String.eqb (name (col c (Name f))) "OMIT" = true.
Proof. intros H. rewrite omit_test. now apply bool_decide_eq_true. Qed.

(** The plain renderer appends one cell per visible field. *)
Lemma renderCells_length c t : forall rawcells cells,
  length t = length rawcells ->
  length (renderCells c t rawcells cells)
  = (length cells + length (filter (visible c) t))%nat.
Proof.
  induction t as [|f t IH]; intros [|v rawcells] cells Hlen; try discriminate.
  - cbn. lia.
  - cbn [renderCells]. injection Hlen as Hlen.
    destruct (decide (visible c f)) as [Hv|Hv].
    + rewrite (omit_test_visible c f Hv), (filter_cons_True _ _ _ Hv), IH by exact Hlen.
      rewrite length_app. cbn. lia.
    + rewrite (omit_test_omitted c f Hv), (filter_cons_False _ _ _ Hv), IH by exact Hlen.
      lia.
Qed.

Lemma renderRow_length c rt x :
  hasShape rt x -> length (renderRow c (Some x)) = length (filter (visible c) rt).
Proof.
  intros (fs & -> & <-). unfold renderRow. cbn [rowFromStruct fieldsOf].
  rewrite renderCells_length by now rewrite !length_map. reflexivity.
Qed.

(** The delta loop only appends: a finished row starts with the cells
    it was entered with and adds one cell per visible field. *)
Lemma deltaCells_appends c interval t : forall rawcells rawold i cells row,
  length t = length rawcells ->
  deltaCells c interval t rawcells rawold i cells = Ret (inl row) ->
  exists more, row = cells ++ more /\ length more = length (filter (visible c) t).
Proof.
  induction t as [|f t IH]; intros [|v rawcells] rawold i cells row Hlen H; try discriminate.
  - cbn in H. inversion H; subst. exists []. now rewrite app_nil_r.
  - cbn [deltaCells] in H. injection Hlen as Hlen.
    destruct (decide (visible c f)) as [Hv|Hv].
    + rewrite (omit_test_visible c f Hv) in H. rewrite (filter_cons_True _ _ _ Hv).
      destruct (rawold !! i) as [oldcell|]; [|discriminate].
      destruct (negb _); [discriminate|].
      destruct (toFloat v) as [newfloat [?|]], (toFloat oldcell) as [oldfloat [?|]];
        apply IH in H as (more & -> & Hm); try exact Hlen;
        eexists (_ :: more); (split; [now rewrite <- app_assoc | cbn; lia]).
    + rewrite (omit_test_omitted c f Hv) in H. rewrite (filter_cons_False _ _ _ Hv).
      now apply IH in H.
Qed.

Lemma deltaCells_length c interval t rawcells rawold row :
  length t = length rawcells ->
  deltaCells c interval t rawcells rawold 0 [] = Ret (inl row) ->
  length row = length (filter (visible c) t).
Proof.
  intros Hlen H. apply deltaCells_appends in H as (more & -> & Hm); [|exact Hlen].
  exact Hm.
Qed.

Lemma deltaCells_cell c interval t : forall rawcells rawold i cells row j f newcell oldcell,
  length t = length rawcells ->
  deltaCells c interval t rawcells rawold i cells = Ret (inl row) ->
  t !! j = Some f -> visible c f ->
  rawcells !! j = Some newcell -> rawold !! (i + j)%nat = Some oldcell ->
  row !! (length cells + renderedIndex c t j)%nat = Some (deltaCell c interval f newcell oldcell).
Proof.
  induction t as [|g t IH];
    intros [|v rawcells] rawold i cells row j f newcell oldcell Hlen H Hj Hv Hn Ho;
    try discriminate.
  injection Hlen as Hlen. cbn [deltaCells] in H.
  destruct j as [|j].
  - cbn in Hj, Hn. injection Hj as ->. injection Hn as ->.
    rewrite Nat.add_0_r in Ho. rewrite Ho in H.
    rewrite (omit_test_visible c f Hv) in H.
    destruct (negb _); [discriminate|].
    unfold renderedIndex. cbn [take filter length list_filter]. rewrite Nat.add_0_r.
    unfold deltaCell.
    destruct (toFloat newcell) as [newfloat [?|]], (toFloat oldcell) as [oldfloat [?|]];
      apply deltaCells_appends in H as (more & -> & _); try exact Hlen;
      rewrite <- app_assoc; now rewrite lookup_app_r, Nat.sub_diag by lia.
  - cbn in Hj, Hn. replace (i + S j)%nat with (S i + j)%nat in Ho by lia.
    unfold renderedIndex. cbn [take].
    destruct (decide (visible c g)) as [Hg|Hg].
    + rewrite (omit_test_visible c g Hg) in H. rewrite (filter_cons_True _ _ _ Hg).
      destruct (rawold !! i) as [oc|]; [|discriminate].
      destruct (negb _); [discriminate|].
      cbn [length]. replace (length cells + S (length (filter (visible c) (take j t))))%nat
        with (length (cells ++ [deltaCell c interval g v oc]) + renderedIndex c t j)%nat
        by (rewrite length_app; cbn; unfold renderedIndex; lia).
      unfold deltaCell at 1.
      destruct (toFloat v) as [newfloat [?|]], (toFloat oc) as [oldfloat [?|]];
        eapply IH; eauto.
    + rewrite (omit_test_omitted c g Hg) in H. rewrite (filter_cons_False _ _ _ Hg).
      eapply IH; eauto.
Qed.
End Rows.

(** * The registry that [ColumnInfo] builds *)

Lemma nonOmit_empty : nonOmit ∅ = 0%nat.
Proof. unfold nonOmit. now rewrite map_to_list_empty. Qed.

Lemma nonOmit_insert (c : Columns) k d :
  c !! k = None ->
  nonOmit (<[k := d]> c)
  = ((if decide (name d <> "OMIT") then 1 else 0) + nonOmit c)%nat.
Proof.
  intros Hk. unfold nonOmit. rewrite (map_to_list_insert c k d Hk).
  destruct (decide (name d <> "OMIT")) as [H|H].
  - now rewrite filter_cons_True.
  - now rewrite filter_cons_False.
Qed.

Lemma fieldColumn_number f i column sorts err :
  fieldColumn f i = Ret (column, sorts, err) -> number column = i.
Proof.
  unfold fieldColumn. destruct (Tag f) as [tg|].
  - destruct (parseTags (Name f) tg) as [[c e]|]; cbn; [|discriminate].
    intros H. now inversion H.
  - intros H. now inversion H.
Qed.

(** One pass of the loop over fields with distinct names that the
    registry does not hold yet: the other keys are untouched, every field
    gets a descriptor with its index, and the registry and the column
    names grow by one per visible field. *)
Lemma ColumnInfo_loop_registry fields : forall i cols0 names0 sorting0 cols names sorting,
  ColumnInfo_loop fields i cols0 names0 sorting0 = Ret (cols, names, sorting, None) ->
  NoDup (map Name fields) ->
  (forall f, In f fields -> cols0 !! Name f = None) ->
  (forall k, ~ In k (map Name fields) -> cols !! k = cols0 !! k)
  /\ (forall j f, fields !! j = Some f ->
        exists d, cols !! Name f = Some d /\ number d = i + Z.of_nat j)
  /\ nonOmit cols = (nonOmit cols0 + length (filter (visible cols) fields))%nat
  /\ length names = (length names0 + length (filter (visible cols) fields))%nat.
Proof.
  induction fields as [|f rest IH]; intros i cols0 names0 sorting0 cols names sorting H Hnd Hfresh.
  - cbn in H. inversion H; subst. repeat split; auto; try (cbn; lia).
    intros j f Hj. destruct j; discriminate.
  - cbn [ColumnInfo_loop] in H.
    destruct (fieldColumn f i) as [[[column sorts] [e|]]|] eqn:Hfc; cbn in H; try discriminate.
    unfold addColumn in H.
    apply NoDup_cons in Hnd as [Hnotin Hnd]. 
    apply IH in H as (Hother & Hnum & Hcount & Hnames); [|exact Hnd|].
    2:{ intros g Hg. rewrite lookup_insert_ne.
        - apply Hfresh. now right.
        - intros E. apply Hnotin. rewrite E. apply list_elem_of_In, in_map, Hg. }
    assert (Hf : cols !! Name f = Some column).
    { rewrite Hother; [apply lookup_insert_eq|].
      intros Hin. apply Hnotin. now apply list_elem_of_In. }
    assert (Hvis : visible cols f <-> name column <> "OMIT").
    { unfold visible, col. now rewrite Hf. }
    repeat split.
    + intros k Hk. rewrite Hother by (intros Hin; apply Hk; now right).
      apply lookup_insert_ne. intros E. apply Hk. now left.
    + intros [|j] g Hj.
      * injection Hj as <-. exists column. split; [exact Hf|].
        rewrite (fieldColumn_number _ _ _ _ _ Hfc). lia.
      * destruct (Hnum j g Hj) as (d & Hd & Hn). exists d. split; [exact Hd|]. lia.
    + rewrite Hcount, nonOmit_insert by (apply Hfresh; now left).
      destruct (decide (name column <> "OMIT")) as [Hc|Hc].
      * rewrite (filter_cons_True (visible cols)) by now apply Hvis. cbn [length]. lia.
      * rewrite (filter_cons_False (visible cols)) by now rewrite Hvis. lia.
    + rewrite Hnames.
      destruct (String.eqb_spec (name column) "OMIT") as [Hc|Hc].
      * rewrite (filter_cons_False (visible cols)) by (rewrite Hvis; tauto). lia.
      * rewrite (filter_cons_True (visible cols)) by now apply Hvis.
        rewrite length_app. cbn [length]. lia.
Qed.

(** The names the loop appends are never ["OMIT"], whether it ends with
    an error or not. *)
Lemma ColumnInfo_loop_names fields : forall i cols0 names0 sorting0 cols names sorting err,
  ColumnInfo_loop fields i cols0 names0 sorting0 = Ret (cols, names, sorting, err) ->
  ~ In "OMIT" names0 -> ~ In "OMIT" names.
Proof.
  induction fields as [|f rest IH]; intros i cols0 names0 sorting0 cols names sorting err H H0.
  - cbn in H. now inversion H; subst.
  - cbn [ColumnInfo_loop] in H.
    destruct (fieldColumn f i) as [[[column sorts] [e|]]|]; cbn in H; try discriminate.
    + now inversion H; subst.
    + unfold addColumn in H. apply IH in H; [exact H|].
      destruct (String.eqb_spec (name column) "OMIT") as [Hc|Hc]; [exact H0|].
      rewrite in_app_iff. intros [Hin|[Hin|[]]]; [now apply H0 | now apply Hc].
Qed.

(** The registry of a struct whose field names are distinct: it holds
    as many visible descriptors as the struct has visible fields, which is
    also the number of column names, and it stores for every field its
    index in the struct. *)
Lemma ColumnInfo_registry fs cols names sorting :
  NoDup (map Name (map fst fs)) ->
  ColumnInfo (Item (Struct fs)) = Ret (cols, names, sorting, None) ->
  nonOmit cols = length (filter (visible cols) (map fst fs))
  /\ length names = nonOmit cols
  /\ (forall j f, map fst fs !! j = Some f -> number (col cols (Name f)) = Z.of_nat j).
Proof.
  intros Hnd H. unfold ColumnInfo in H. destruct fs as [|[f0 v0] fs']; [discriminate|].
  apply ColumnInfo_loop_registry in H as (_ & Hnum & Hcount & Hnames); [|exact Hnd|].
  2:{ intros; apply lookup_empty. }
  rewrite nonOmit_empty in Hcount. cbn [length] in Hnames.
  repeat split; [exact Hcount | lia |].
  intros j f Hj. destruct (Hnum j f Hj) as (d & Hd & Hn).
  unfold col. rewrite Hd. cbn. lia.
Qed.

(** The index the sorter uses for a field is its index in the struct;
    the position of its cell in a rendered row is smaller as soon as a
    field before it is OMIT. *)
Lemma sort_index_exceeds_rendered_index fs cols names sorting i g j f :
  NoDup (map Name (map fst fs)) ->
  ColumnInfo (Item (Struct fs)) = Ret (cols, names, sorting, None) ->
  map fst fs !! i = Some g -> ~ visible cols g -> (i < j)%nat ->
  map fst fs !! j = Some f ->
  number (col cols (Name f)) = Z.of_nat j
  /\ (renderedIndex cols (map fst fs) j < j)%nat.
Proof.
  intros Hnd Hci Hi Hg Hij Hj.
  destruct (ColumnInfo_registry fs cols names sorting Hnd Hci) as (_ & _ & Hnum).
  split; [now apply Hnum|]. unfold renderedIndex.
  eapply Nat.lt_le_trans.
  - apply (length_filter_lt (visible cols) (take j (map fst fs)) g); [|exact Hg].
    apply list_elem_of_lookup. exists i. now rewrite lookup_take_lt.
  - rewrite length_take. lia.
Qed.

(** * Tables *)

Lemma MapIndex_In kvs k :
  In k (map fst kvs) -> exists x, MapIndex kvs k = Some x /\ In x (map snd kvs).
Proof.
  induction kvs as [|[k' x] kvs IH]; intros Hin; [destruct Hin|].
  cbn [MapIndex]. destruct (String.eqb_spec k' k) as [E|E].
  - exists x. split; [reflexivity | now left].
  - destruct Hin as [Hk|Hin]; [now destruct E|].
    destruct (IH Hin) as (y & Hy & Hiny). exists y. split; [exact Hy | now right].
Qed.

Section Tables.
Context {L : GoLib}.
Implicit Types (c : Columns) (s : Samplers) (rows : list (list string)).

Lemma deltaRows_app c interval rnew rold pre : forall rest rows rows0,
  deltaRows c interval rnew rold pre rows = Ret (rows0, None) ->
  deltaRows c interval rnew rold (pre ++ rest) rows
  = deltaRows c interval rnew rold rest rows0.
Proof.
  induction pre as [|k pre IH]; intros rest rows rows0 H.
  - cbn in H. now inversion H.
  - cbn [deltaRows app] in *.
    destruct (deltaRow c interval rnew rold k) as [[cells|e]|]; cbn in *; try discriminate.
    now apply IH.
Qed.

(** Every row the delta loop returns was there before or is the
    finished row of one of the keys; without error every key has its
    row. *)
Lemma deltaRows_rows c interval rnew rold keys : forall rows rows' err,
  deltaRows c interval rnew rold keys rows = Ret (rows', err) ->
  (forall row, In row rows' ->
     In row rows \/ exists k, In k keys /\ deltaRow c interval rnew rold k = Ret (inl row))
  /\ (err = None ->
      (length rows' = length rows + length keys)%nat
      /\ (forall row, In row rows -> In row rows')
      /\ forall k, In k keys ->
           exists row, deltaRow c interval rnew rold k = Ret (inl row) /\ In row rows').
Proof.
  induction keys as [|k keys IH]; intros rows rows' err H.
  - cbn in H. inversion H; subst. split; [auto|]. intros _.
    split; [cbn; lia|]. split; [auto|]. intros k [].
  - cbn [deltaRows] in H.
    destruct (deltaRow c interval rnew rold k) as [[cells|e]|] eqn:Hk; cbn in H; try discriminate.
    + apply IH in H as [Hin Hok]. split.
      * intros row Hrow. destruct (Hin row Hrow) as [Hr|(k' & Hk' & Hr)].
        -- apply in_app_iff in Hr as [Hr|[<-|[]]]; [now left|].
           right. exists k. split; [now left | exact Hk].
        -- right. exists k'. split; [now right | exact Hr].
      * intros ->. destruct (Hok eq_refl) as (Hlen & Hsub & Hall).
        split; [rewrite Hlen, length_app; cbn; lia|].
        split; [intros row Hrow; apply Hsub, in_app_iff; now left|].
        intros k' [<-|Hk'].
        -- exists cells. split; [exact Hk|]. apply Hsub, in_app_iff. right. now left.
        -- now apply Hall.
    + inversion H; subst. split; [auto | discriminate].
Qed.

(** The rows [RowsFromMapDelta] returns, with or without error, are
    finished rows of keys of the current collection. *)
Lemma RowsFromMapDelta_rows s rnew rold interval rows err :
  RowsFromMapDelta s (Map rnew) (Map rold) interval = Ret (rows, err) ->
  forall row, In row rows ->
    exists k, In k (map fst rnew)
      /\ deltaRow (columns s) (if interval =? 0 then 1 * Second else interval) rnew rold k
         = Ret (inl row).
Proof.
  unfold RowsFromMapDelta. intros H row Hrow.
  destruct (deltaRows _ _ _ _ _ _) as [[rows0 [e|]]|] eqn:Hd; cbn in H; try discriminate.
  - inversion H; subst. apply deltaRows_rows in Hd as [Hin _].
    destruct (Hin row Hrow) as [[]|Hk]. exact Hk.
  - destruct (sortRows _ _ _) as [rows1|] eqn:Hs; cbn in H; try discriminate.
    inversion H; subst. apply sortRows_perm in Hs.
    apply deltaRows_rows in Hd as [Hin _].
    destruct (Hin row) as [[]|Hk]; [|exact Hk].
    eapply Permutation_in; [symmetry; exact Hs | exact Hrow].
Qed.

(** Without error there is one row per key of the current collection,
    and every key has its row. *)
Lemma RowsFromMapDelta_complete s rnew rold interval rows :
  RowsFromMapDelta s (Map rnew) (Map rold) interval = Ret (rows, None) ->
  length rows = length rnew
  /\ forall k, In k (map fst rnew) ->
       exists row, In row rows
         /\ deltaRow (columns s) (if interval =? 0 then 1 * Second else interval) rnew rold k
            = Ret (inl row).
Proof.
  unfold RowsFromMapDelta. intros H.
  destruct (deltaRows _ _ _ _ _ _) as [[rows0 [e|]]|] eqn:Hd; cbn in H; try discriminate.
  destruct (sortRows _ _ _) as [rows1|] eqn:Hs; cbn in H; try discriminate.
  inversion H; subst. apply sortRows_perm in Hs.
  apply deltaRows_rows in Hd as [_ Hok]. destruct (Hok eq_refl) as (Hlen & _ & Hall).
  split.
  - rewrite <- (Permutation_length Hs), Hlen, length_map. reflexivity.
  - intros k Hk. destruct (Hall k Hk) as (row & Hrow & Hin).
    exists row. split; [|exact Hrow]. eapply Permutation_in; eauto.
Qed.

(** A key of the current collection that the previous one lacks makes
    the row loop read [rawold[i]] of an empty projection at the first
    visible field. *)
Lemma deltaCells_no_old c interval t : forall rawcells i cells,
  length t = length rawcells -> Exists (visible c) t ->
  deltaCells c interval t rawcells [] i cells = Panic IndexOutOfRange.
Proof.
  induction t as [|f t IH]; intros [|v rawcells] i cells Hlen Hex; try discriminate.
  - inversion Hex.
  - cbn [deltaCells]. injection Hlen as Hlen.
    destruct (decide (visible c f)) as [Hv|Hv].
    + now rewrite (omit_test_visible c f Hv).
    + rewrite (omit_test_omitted c f Hv). apply IH; [exact Hlen|].
      now inversion Hex; subst.
Qed.

Lemma deltaRow_new_only c interval rnew rold k fs :
  MapIndex rnew k = Some (Struct fs) -> MapIndex rold k = None ->
  Exists (visible c) (map fst fs) ->
  deltaRow c interval rnew rold k = Panic IndexOutOfRange.
Proof.
  intros Hn Ho Hex. unfold deltaRow. rewrite Hn, Ho. cbn [rowFromStruct fieldsOf].
  apply deltaCells_no_old; [now rewrite !length_map | exact Hex].
Qed.
End Tables.

(** C5: for a struct with distinct field names and the registry
    [ColumnInfo] derives from it, every row that [RowsFromSlice],
    [RowsFromMap] or [RowsFromMapDelta] returns for records of that
    struct has as many cells as the registry has descriptors that are
    not OMIT (which is also the number of column names). *)
Theorem rows_have_one_cell_per_visible_column {L : GoLib} fs cols names sorting s :
  NoDup (map Name (map fst fs)) ->
  ColumnInfo (Item (Struct fs)) = Ret (cols, names, sorting, None) ->
  columns s = cols ->
  length names = nonOmit cols
  /\ (forall rd rows err,
        Forall (hasShape (map fst fs)) rd ->
        RowsFromSlice s (Slice rd) = Ret (rows, err) ->
        Forall (fun row => length row = nonOmit cols) rows)
  /\ (forall r rows err,
        Forall (hasShape (map fst fs)) (map snd r) ->
        RowsFromMap s (Map r) = Ret (rows, err) ->
        Forall (fun row => length row = nonOmit cols) rows)
  /\ (forall rnew rold interval rows err,
        Forall (hasShape (map fst fs)) (map snd rnew) ->
        RowsFromMapDelta s (Map rnew) (Map rold) interval = Ret (rows, err) ->
        Forall (fun row => length row = nonOmit cols) rows).
Proof.
  intros Hnd Hci Hs.
  destruct (ColumnInfo_registry fs cols names sorting Hnd Hci) as (Hcount & Hnames & _).
  split; [exact Hnames|]. rewrite Hcount. split; [|split].
  - intros rd rows err Hrd H. cbn in H. inversion H; subst.
    rewrite Forall_forall. intros row Hrow. apply list_elem_of_In, in_map_iff in Hrow.
    destruct Hrow as (x & <- & Hx).
    apply renderRow_length. rewrite Forall_forall in Hrd. now apply Hrd, list_elem_of_In.
  - intros r rows err Hr H. cbn in H.
    destruct (sortRows _ _ _) as [rows1|] eqn:Hsort; cbn in H; try discriminate.
    inversion H; subst. apply sortRows_perm in Hsort.
    rewrite Forall_forall. intros row Hrow. apply list_elem_of_In in Hrow.
    apply (Permutation_in _ (Permutation_sym Hsort)), in_map_iff in Hrow.
    destruct Hrow as (k & <- & Hk).
    destruct (MapIndex_In r k Hk) as (x & -> & Hx).
    apply renderRow_length. rewrite Forall_forall in Hr. now apply Hr, list_elem_of_In.
  - intros rnew rold interval rows err Hr H.
    rewrite Forall_forall. intros row Hrow. apply list_elem_of_In in Hrow.
    destruct (RowsFromMapDelta_rows s rnew rold interval rows err H row Hrow) as (k & Hk & Hrow').
    destruct (MapIndex_In rnew k Hk) as (x & Hx & Hin).
    rewrite Forall_forall in Hr. destruct (Hr x) as (fsx & -> & Hshape).
    { now apply list_elem_of_In. }
    unfold deltaRow in Hrow'. rewrite Hx in Hrow'. cbn [rowFromStruct fieldsOf] in Hrow'.
    destruct (rowFromStruct _ _) as [rawold ?]. rewrite Hs, Hshape in Hrow'.
    apply deltaCells_length in Hrow'; [exact Hrow'|].
    rewrite <- Hshape. now rewrite !length_map.
Qed.

Lemma rows_have_one_cell_per_visible_column_witness :
  Forall (fun row => length row = nonOmit (registryOf (Item (recABC "" "" ""))))
         [["a"; "z"]; ["b"; "y"]].
Proof.
  pose (cols := registryOf (Item (recABC "" "" ""))).
  assert (Hnd : NoDup (map Name (map fst (combine shapeABC [VString ""; VString ""; VString ""])))).
  { compute_done. }
  assert (Hci : ColumnInfo (Item (recABC "" "" "")) = Ret (cols, ["B"; "C"], "B", None)).
  { vm_compute. reflexivity. }
  destruct (rows_have_one_cell_per_visible_column (L := exampleLib) _ cols _ _
              (samplerOf cols ["B"; "C"] "B") Hnd Hci eq_refl) as (_ & Hslice & _ & _).
  apply (Hslice [recABC "x" "a" "z"; recABC "y" "b" "y"] _ None).
  - repeat constructor; eexists; split; reflexivity.
  - vm_compute. reflexivity.
Defined.

(** * Delta mode *)

(** C2: a key that only the current collection has must contribute no
    row and cause no failure.  With the one visible field [Count], the
    current collection [{a, b}] and the previous collection [{a}], the
    loop reaches [b], projects nothing for the previous side and reads
    [rawold[0]]: [RowsFromMapDelta] panics.  (A key that only the
    previous collection has is never looked at.) *)
Theorem RowsFromMapDelta_current_only_key_panics :
  exists s,
    samplerFrom (Item (recCount (VInt 0))) = Some s /\
    RowsFromMapDelta s
      (Map [("a", recCount (VInt 110)); ("b", recCount (VInt 7))])
      (Map [("a", recCount (VInt 100))]) 0
    = Panic IndexOutOfRange /\
    RowsFromMapDelta s
      (Map [("a", recCount (VInt 110))])
      (Map [("a", recCount (VInt 100)); ("b", recCount (VInt 7))]) 0
    = Ret ([["10"]], None).
Proof.
  eexists. split; [reflexivity|]. split; vm_compute; reflexivity.
Qed.

Section Delta.
Context {L : GoLib}.
Implicit Types (c : Columns) (s : Samplers) (t : list structField).

(** With the previous projection as long as the current one, a visible
    field whose two values differ in type ends the loop with the error,
    at the first such field. *)
Lemma deltaCells_mismatch c interval t : forall rawcells rawold i cells j f newcell oldcell,
  length t = length rawcells ->
  (length t + i <= length rawold)%nat ->
  t !! j = Some f -> visible c f ->
  rawcells !! j = Some newcell -> rawold !! (i + j)%nat = Some oldcell ->
  TypeOf oldcell <> TypeOf newcell ->
  deltaCells c interval t rawcells rawold i cells = Ret (inr ErrNonMatchingTypes).
Proof.
  induction t as [|g t IH];
    intros [|v rawcells] rawold i cells j f newcell oldcell Hlen Hold Hj Hv Hn Ho Hty;
    try discriminate.
  injection Hlen as Hlen. cbn [deltaCells]. cbn [length] in Hold.
  destruct (lookup_lt_is_Some_2 rawold i) as [oc Hoc]; [lia|].
  assert (Hnext : forall cells',
    j <> 0%nat ->
    deltaCells c interval t rawcells rawold (S i) cells' = Ret (inr ErrNonMatchingTypes)).
  { intros cells' Hj0. destruct j as [|j]; [congruence|].
    eapply (IH rawcells rawold (S i) cells' j f newcell oldcell); eauto; try lia.
    now replace (S i + j)%nat with (i + S j)%nat by lia. }
  destruct (decide (visible c g)) as [Hg|Hg].
  - rewrite (omit_test_visible c g Hg), Hoc.
    destruct (type_eqb (TypeOf oc) (TypeOf v)) eqn:Et; [|reflexivity]. cbn [negb].
    apply type_eqb_eq in Et.
    assert (Hj0 : j <> 0%nat).
    { intros ->. cbn in Hj, Hn. rewrite Nat.add_0_r in Ho.
      rewrite Ho in Hoc. inversion Hoc; inversion Hn; subst. now apply Hty. }
    destruct (toFloat v) as [newfloat [?|]], (toFloat oc) as [oldfloat [?|]];
      now apply Hnext.
  - rewrite (omit_test_omitted c g Hg). apply Hnext.
    intros ->. cbn in Hj. injection Hj as ->. contradiction.
Qed.

(** The loop started at index [i] reads the previous projection from
    [i] on only. *)
Lemma deltaCells_old_from c interval t : forall rawcells rawold rawold' i cells,
  (forall n, (i <= n)%nat -> rawold !! n = rawold' !! n) ->
  deltaCells c interval t rawcells rawold i cells
  = deltaCells c interval t rawcells rawold' i cells.
Proof.
  induction t as [|g t IH]; intros [|v rawcells] rawold rawold' i cells Hsame; try reflexivity.
  cbn [deltaCells]. rewrite <- (Hsame i) by lia.
  assert (Hrec : forall cells',
    deltaCells c interval t rawcells rawold (S i) cells'
    = deltaCells c interval t rawcells rawold' (S i) cells').
  { intros cells'. apply IH. intros n Hn. apply Hsame. lia. }
  destruct (String.eqb _ _); [apply Hrec|].
  destruct (rawold !! i) as [oc|]; [|reflexivity].
  destruct (negb _); [reflexivity|].
  destruct (toFloat v) as [newfloat [?|]], (toFloat oc) as [oldfloat [?|]]; apply Hrec.
Qed.

(** The row of an entry does not depend on the values, current or
    previous, of a field that is OMIT: the loop skips the field before it
    reads the previous value. *)
Lemma deltaCells_skips_omit c interval t : forall rawcells rawold i cells j f v v',
  t !! j = Some f -> ~ visible c f ->
  deltaCells c interval t (<[j := v]> rawcells) (<[(i + j)%nat := v']> rawold) i cells
  = deltaCells c interval t rawcells rawold i cells.
Proof.
  induction t as [|g t IH]; intros rawcells rawold i cells j f v v' Hj Hv; [destruct j; discriminate|].
  destruct rawcells as [|v0 rawcells]; [reflexivity|].
  destruct j as [|j].
  - cbn in Hj. injection Hj as ->. cbn [deltaCells insert list_insert].
    rewrite (omit_test_omitted c f Hv). rewrite Nat.add_0_r.
    apply deltaCells_old_from. intros n Hn. apply list_lookup_insert_ne. lia.
  - cbn in Hj. cbn [deltaCells insert list_insert].
    rewrite list_lookup_insert_ne by lia.
    replace (i + S j)%nat with (S i + j)%nat by lia.
    assert (Hrec : forall cells',
      deltaCells c interval t (<[j := v]> rawcells) (<[(S i + j)%nat := v']> rawold) (S i) cells'
      = deltaCells c interval t rawcells rawold (S i) cells').
    { intros cells'. eapply IH; eauto. }
    destruct (String.eqb _ _); [apply Hrec|].
    destruct (rawold !! i) as [oc|]; [|reflexivity].
    destruct (negb _); [reflexivity|].
    destruct (toFloat v0) as [newfloat [?|]], (toFloat oc) as [oldfloat [?|]]; apply Hrec.
Qed.
End Delta.

Lemma lookup_map {A B} (g : A -> B) (l : list A) j : map g l !! j = g <$> (l !! j).
Proof. revert j. induction l as [|a l IH]; intros [|j]; cbn; auto. Qed.

Lemma Seconds_one_second : Seconds (1 * Second) = f64_of_Z 1.
Proof. reflexivity. Qed.

Lemma toFloat_convertible v :
  ConvertibleToFloat (TypeOf v) = true -> toFloat v = (Convert v, None).
Proof. intros H. unfold toFloat. now rewrite H. Qed.

(** C3 (as the code has it): when the rows of the keys before [k] are
    built and, at [k], a visible field has values of different types in
    the current and the previous record, [RowsFromMapDelta] stops there
    and returns the error "non-matching types in data" together with the
    rows built so far, unsorted; [UpdateTableFromMapDelta] drops the
    error and hands exactly these rows to the dataview. *)
Theorem delta_mismatch_returns_error_and_rows_so_far {L : GoLib}
    s rnew rold interval pre k post rows0 fsn fso j f newcell oldcell :
  map fst rnew = pre ++ k :: post ->
  deltaRows (columns s) (if interval =? 0 then 1 * Second else interval) rnew rold pre []
  = Ret (rows0, None) ->
  MapIndex rnew k = Some (Struct fsn) -> MapIndex rold k = Some (Struct fso) ->
  (length fsn <= length fso)%nat ->
  fsn !! j = Some (f, newcell) -> map snd fso !! j = Some oldcell ->
  visible (columns s) f -> TypeOf oldcell <> TypeOf newcell ->
  RowsFromMapDelta s (Map rnew) (Map rold) interval = Ret (rows0, Some ErrNonMatchingTypes)
  /\ UpdateTableFromMapDelta s (Map rnew) (Map rold) interval = publish s rows0.
Proof.
  intros Hkeys Hpre Hn Ho Hlen Hj Hoj Hv Hty.
  assert (Hrows : RowsFromMapDelta s (Map rnew) (Map rold) interval
                  = Ret (rows0, Some ErrNonMatchingTypes)).
  { unfold RowsFromMapDelta. rewrite Hkeys, (deltaRows_app _ _ _ _ _ _ _ _ Hpre).
    cbn [deltaRows]. unfold deltaRow. rewrite Hn, Ho. cbn [rowFromStruct fieldsOf].
    rewrite (deltaCells_mismatch _ _ _ _ _ 0%nat [] j f newcell oldcell); try assumption.
    - reflexivity.
    - now rewrite !length_map.
    - rewrite !length_map. lia.
    - rewrite lookup_map, Hj. reflexivity.
    - rewrite lookup_map, Hj. reflexivity. }
  split; [exact Hrows|]. unfold UpdateTableFromMapDelta. now rewrite Hrows.
Qed.

Lemma delta_mismatch_returns_error_and_rows_so_far_witness :
  let s := samplerOf (registryOf (Item (recCount (VInt 0)))) ["Count"] "Count" in
  let new := Map [("a", recCount (VInt 1)); ("b", recCount (VInt 110))] in
  let old := Map [("a", recCount (VInt 0)); ("b", recCount (VString "oops"))] in
  RowsFromMapDelta s new old 0 = Ret ([["1"]], Some ErrNonMatchingTypes)
  /\ UpdateTableFromMapDelta s new old 0 = publish s [["1"]].
Proof.
  intros s new old.
  apply (delta_mismatch_returns_error_and_rows_so_far (L := exampleLib) s _ _ 0
           ["a"] "b" [] [["1"]]
           [(field "Count", VInt 110)] [(field "Count", VString "oops")]
           0%nat (field "Count") (VInt 110) (VString "oops")).
  - reflexivity.
  - vm_compute. reflexivity.
  - reflexivity.
  - reflexivity.
  - cbn. lia.
  - reflexivity.
  - reflexivity.
  - vm_compute. discriminate.
  - discriminate.
Defined.

(** C3 as stated fails: the previous record of key [b] holds a string
    where the current one holds an integer, yet the dataview receives a
    table, made of the column names and the row of key [a]. *)
Lemma delta_mismatch_publishes_rows_so_far :
  let s := samplerOf (registryOf (Item (recCount (VInt 0)))) ["Count"] "Count" in
  let new := Map [("a", recCount (VInt 1)); ("b", recCount (VInt 110))] in
  let old := Map [("a", recCount (VInt 0)); ("b", recCount (VString "oops"))] in
  samplerFrom (Item (recCount (VInt 0))) = Some s
  /\ UpdateTableFromMapDelta s new old 0
     = Ret ({| valid := true; table := [["Count"]; ["1"]] |}, None).
Proof. split; vm_compute; reflexivity. Qed.

(** C4 (as the code has it): when [RowsFromMapDelta] returns without
    error, every key of the current collection that the previous one also
    has gets a row in which, for every visible field whose two values
    convert to [float64], the cell at the field's rendered position is
    the field's format applied to [(new - old) / d]; the divisor [d] is
    exactly 1 for the interval zero and [interval.Seconds()] for every
    other interval, negative ones included. *)
Theorem delta_cell_is_rate {L : GoLib} s rnew rold interval rows k fsn fso :
  RowsFromMapDelta s (Map rnew) (Map rold) interval = Ret (rows, None) ->
  In k (map fst rnew) ->
  MapIndex rnew k = Some (Struct fsn) -> MapIndex rold k = Some (Struct fso) ->
  exists row, In row rows /\
    forall j f newcell oldcell,
      fsn !! j = Some (f, newcell) -> map snd fso !! j = Some oldcell ->
      visible (columns s) f ->
      ConvertibleToFloat (TypeOf newcell) = true ->
      ConvertibleToFloat (TypeOf oldcell) = true ->
      row !! renderedIndex (columns s) (map fst fsn) j
      = Some (Sprintf (format (col (columns s) (Name f)))
                (VFloat64 (f64_div (f64_sub (Convert newcell) (Convert oldcell))
                             (if interval =? 0 then f64_of_Z 1 else Seconds interval)))).
Proof.
  intros H Hk Hn Ho.
  destruct (RowsFromMapDelta_complete s rnew rold interval rows H) as [_ Hall].
  destruct (Hall k Hk) as (row & Hin & Hrow). exists row. split; [exact Hin|].
  intros j f newcell oldcell Hj Hoj Hv Hcn Hco.
  unfold deltaRow in Hrow. rewrite Hn, Ho in Hrow. cbn [rowFromStruct fieldsOf] in Hrow.
  pose proof (deltaCells_cell _ _ _ _ _ _ _ _ j f newcell oldcell
                (eq_sym (eq_trans (length_map _ _) (eq_sym (length_map _ _)))) Hrow) as Hcell.
  cbn [length Nat.add] in Hcell. rewrite Hcell.
  - unfold deltaCell. rewrite (toFloat_convertible _ Hcn), (toFloat_convertible _ Hco).
    destruct (interval =? 0); [rewrite Seconds_one_second|]; reflexivity.
  - rewrite lookup_map, Hj. reflexivity.
  - exact Hv.
  - rewrite lookup_map, Hj. reflexivity.
  - exact Hoj.
Qed.

Lemma delta_cell_is_rate_witness :
  exists row, In row [["1"]] /\ row !! 0%nat = Some "1".
Proof.
  pose (s := samplerOf (registryOf (Item (recCount (VInt 0)))) ["Count"] "Count").
  destruct (delta_cell_is_rate (L := exampleLib) s
              [("a", recCount (VInt 110))] [("a", recCount (VInt 100))] (10 * Second)
              [["1"]] "a" [(field "Count", VInt 110)] [(field "Count", VInt 100)])
    as (row & Hin & Hcell).
  - vm_compute. reflexivity.
  - cbn. now left.
  - reflexivity.
  - reflexivity.
  - exists row. split; [exact Hin|].
    apply (Hcell 0%nat (field "Count") (VInt 110) (VInt 100)).
    + reflexivity.
    + reflexivity.
    + vm_compute. discriminate.
    + reflexivity.
    + reflexivity.
Defined.

(** C4 as stated fails for a negative interval: with 110 against 100
    and an interval of -10 seconds the cell is the delta divided by -10,
    where a divisor of one second would render the raw delta 10. *)
Lemma delta_negative_interval_divides :
  let s := samplerOf (registryOf (Item (recCount (VInt 0)))) ["Count"] "Count" in
  samplerFrom (Item (recCount (VInt 0))) = Some s
  /\ RowsFromMapDelta s (Map [("a", recCount (VInt 110))]) (Map [("a", recCount (VInt 100))])
       (-10 * Second)
     = Ret ([["-1"]], None)
  /\ Sprintf "%v" (VFloat64 (f64_div (f64_sub (f64_of_Z 110) (f64_of_Z 100)) (f64_of_Z 1)))
     = "10".
Proof. repeat split; vm_compute; reflexivity. Qed.

(** C8 (as the code has it): the name ["OMIT"] never enters the column
    names; the row projector returns the value of every field, OMIT or
    not; and the delta loop skips an OMIT field before it reads the
    previous value, so that neither the type comparison nor the
    subtraction is done for it: whatever the current and the previous
    value of such a field are, the outcome of the row is the same. *)
Theorem omit_field_is_projected_but_skipped {L : GoLib} :
  (forall rowdata cols names sorting err,
     ColumnInfo rowdata = Ret (cols, names, sorting, err) -> ~ In "OMIT" names)
  /\ (forall c fs, rowFromStruct c (Some (Struct fs)) = (map snd fs, None))
  /\ (forall c interval t rawcells rawold cells j f v v',
        t !! j = Some f -> name (col c (Name f)) = "OMIT" ->
        deltaCells c interval t (<[j := v]> rawcells) (<[j := v']> rawold) 0 cells
        = deltaCells c interval t rawcells rawold 0 cells).
Proof.
  split; [|split].
  - intros rowdata cols names sorting err H. unfold ColumnInfo in H.
    destruct rowdata as [[fs|]| |]; try (inversion H; subst; now intros []).
    destruct fs as [|[f0 v0] fs]; [discriminate|].
    apply ColumnInfo_loop_names in H; [exact H | now intros []].
  - reflexivity.
  - intros c interval t rawcells rawold cells j f v v' Hj Homit.
    apply (deltaCells_skips_omit c interval t rawcells rawold 0 cells j f v v' Hj).
    unfold visible. tauto.
Qed.

Lemma omit_field_is_projected_but_skipped_witness :
  let c := registryOf (Item (recIdCount (VInt 0) (VInt 0))) in
  deltaCells c Second shapeIdCount
    (<[0%nat := VInt 1]> [VInt 5; VInt 110]) (<[0%nat := VString "x"]> [VInt 5; VInt 100]) 0 []
  = deltaCells c Second shapeIdCount [VInt 5; VInt 110] [VInt 5; VInt 100] 0 [].
Proof.
  intros c.
  apply (proj2 (proj2 (omit_field_is_projected_but_skipped (L := exampleLib)))
           c Second shapeIdCount _ _ [] 0%nat (tagged "ID" "OMIT")).
  - reflexivity.
  - vm_compute. reflexivity.
Defined.

(** C8 as stated fails: the OMIT field [ID] holds an integer in the
    current record and a string in the previous one, and the build ends
    without error, while the same pair of values in the visible field
    [Count] ends it with the error. *)
Lemma omit_field_escapes_type_check :
  let s := samplerOf (registryOf (Item (recIdCount (VInt 0) (VInt 0)))) ["Count"] "ID" in
  samplerFrom (Item (recIdCount (VInt 0) (VInt 0))) = Some s
  /\ TypeOf (VInt 1) <> TypeOf (VString "x")
  /\ RowsFromMapDelta s (Map [("a", recIdCount (VInt 1) (VInt 110))])
       (Map [("a", recIdCount (VString "x") (VInt 100))]) 0
     = Ret ([["10"]], None)
  /\ RowsFromMapDelta s (Map [("a", recIdCount (VInt 7) (VInt 1))])
       (Map [("a", recIdCount (VInt 7) (VString "x"))]) 0
     = Ret ([], Some ErrNonMatchingTypes).
Proof. repeat split; try discriminate; vm_compute; reflexivity. Qed.

(** * Further properties of the tag parser *)

Lemma get_substring t : forall n ch,
  String.get n t = Some ch ->
  exists rest, substring n (String.length t - n) t = String ch rest.
Proof.
  induction t as [|c t IH]; intros n ch H; [destruct n; discriminate|].
  destruct n as [|n]; cbn in H.
  - inversion H; subst. cbn. eauto.
  - cbn. apply IH, H.
Qed.

Lemma byteAt_slice t k ch :
  byteAt t k = Ret ch -> exists rest, slice t k (len t) = String ch rest.
Proof.
  unfold byteAt, slice, len.
  destruct (Z.ltb_spec k 0) as [?|H0]; [discriminate|].
  destruct (Z.leb_spec (Z.of_nat (String.length t)) k) as [?|Hlt]; [discriminate|].
  cbn [orb]. destruct (String.get (Z.to_nat k) t) as [c|] eqn:Hget; [|discriminate].
  intros H. inversion H; subst.
  replace (Z.to_nat (Z.of_nat (String.length t) - k))
    with (String.length t - Z.to_nat k)%nat by lia.
  now apply get_substring.
Qed.

(** What a [sort=] clause sets, whenever it can be read. *)
Lemma parseSort_returns t i cols cols' :
  parseSort t i cols = Ret cols' ->
  cols' = set_sort (sortMode (slice t (i + 1) (len t))) cols.
Proof.
  unfold parseSort. destruct (byteAt t (i + 1)) as [ch|] eqn:Hch; [|discriminate].
  destruct (byteAt_slice _ _ _ Hch) as [rest ->]. cbn [mbind exec_bind].
  intros H. inversion H; subst. clear H. unfold sortMode.
  destruct (Ascii.eqb_spec ch "-") as [->|Hne].
  - cbn. destruct (HasSuffix _ _); reflexivity.
  - assert (Hm : forall X (x y : X), match String ch rest with String "-" _ => x | _ => y end = y).
    { intros X x y. destruct ch as [[] [] [] [] [] [] [] []]; try reflexivity. now destruct Hne. }
    rewrite Hm. cbn. destruct (HasSuffix _ _); reflexivity.
Qed.

Lemma hasKey_keyed key t :
  IndexByte t "=" <> -1 ->
  hasKey key t = String.eqb (slice t 0 (IndexByte t "=")) key.
Proof.
  intros H. unfold hasKey. now destruct (Z.eqb_spec (IndexByte t "=") (-1)).
Qed.

Lemma hasKey_nameOnly key t : nameOnly t -> hasKey key t = false.
Proof. unfold nameOnly, hasKey. now intros ->. Qed.

Lemma hasKey_sort_format t : hasKey sorting t = true -> hasKey format_ t = false.
Proof.
  unfold hasKey. destruct (negb _); [|discriminate]. cbn [andb].
  intros H. apply String.eqb_eq in H. now rewrite H.
Qed.

(** One step of the loop over a clause with an [=]: it panics, or goes
    on with the descriptor [keyed] gives. *)
Lemma parseTags_loop_keyed_step fieldname t rest cols :
  IndexByte t "=" <> -1 ->
  parseTags_loop fieldname (t :: rest) cols = Panic IndexOutOfRange
  \/ parseTags_loop fieldname (t :: rest) cols = parseTags_loop fieldname rest (keyed t cols).
Proof.
  intros Hi. cbn [parseTags_loop]. unfold keyed. rewrite !(hasKey_keyed _ _ Hi).
  destruct (Z.eqb_spec (IndexByte t "=") (-1)) as [?|_]; [contradiction|].
  destruct (String.eqb (slice t 0 (IndexByte t "=")) sorting).
  - destruct (parseSort t (IndexByte t "=") cols) as [cols1|p] eqn:Hp.
    + right. apply parseSort_returns in Hp. subst cols1. reflexivity.
    + left. unfold parseSort in Hp. unfold byteAt in Hp.
      destruct (_ || _); [cbn in Hp; now inversion Hp|].
      destruct (String.get _ _); cbn in Hp; [discriminate | now inversion Hp].
  - right. destruct (String.eqb _ format_); reflexivity.
Qed.

Lemma parseTags_loop_keyed fieldname t rest cols :
  IndexByte t "=" <> -1 -> sortable t ->
  parseTags_loop fieldname (t :: rest) cols = parseTags_loop fieldname rest (keyed t cols).
Proof.
  intros Hi Hs. cbn [parseTags_loop]. unfold keyed. rewrite !(hasKey_keyed _ _ Hi).
  destruct (Z.eqb_spec (IndexByte t "=") (-1)) as [?|_]; [contradiction|].
  destruct (String.eqb (slice t 0 (IndexByte t "=")) sorting) eqn:Es.
  - destruct (byteAt_in_range t (IndexByte t "=" + 1)) as [ch Hch].
    { pose proof (IndexByte_ge t "="). specialize (Hs Es). lia. }
    destruct (parseSort t (IndexByte t "=") cols) as [cols1|p] eqn:Hps.
    + apply parseSort_returns in Hps. subst cols1. reflexivity.
    + unfold parseSort in Hps. rewrite Hch in Hps. discriminate.
  - destruct (String.eqb _ format_); reflexivity.
Qed.

Lemma keyed_name t cols : name (keyed t cols) = name cols.
Proof. unfold keyed. destruct (hasKey sorting t), (hasKey format_ t); reflexivity. Qed.

(** With a display name already set, the next name-only clause is
    refused; clauses with an [=] leave the name alone. *)
Lemma parseTags_loop_named fieldname clauses : forall cols,
  name cols <> fieldname -> Forall sortable clauses ->
  match filter nameOnly clauses with
  | [] => exists cols', parseTags_loop fieldname clauses cols = Ret (cols', None)
                        /\ name cols' = name cols
  | _ :: _ => exists cols', parseTags_loop fieldname clauses cols
                            = Ret (cols', Some (ErrNameRedefined (name cols)))
  end.
Proof.
  induction clauses as [|t rest IH]; intros cols Hn Hs; [cbn; eauto|].
  apply Forall_cons in Hs as [Ht Hrest].
  destruct (decide (nameOnly t)) as [E|E].
  - rewrite (filter_cons_True nameOnly _ _ E). cbn [parseTags_loop].
    unfold nameOnly in E. rewrite E. cbn [Z.eqb Pos.eqb].
    destruct (String.eqb_spec (name cols) fieldname) as [?|_]; [contradiction|].
    cbn [negb]. eauto.
  - rewrite (filter_cons_False nameOnly _ _ E), (parseTags_loop_keyed _ _ _ _ E Ht).
    specialize (IH (keyed t cols)). rewrite keyed_name in IH. now apply IH.
Qed.

(** The name-only clauses are read from left to right, a name equal to
    the field name counts as not given, and a name is refused as soon as
    a different one stands before it. *)
Lemma parseTags_loop_names fieldname clauses : forall cols,
  name cols = fieldname -> Forall sortable clauses ->
  match nameResult fieldname (filter nameOnly clauses) with
  | inl n => exists cols', parseTags_loop fieldname clauses cols = Ret (cols', None)
                           /\ name cols' = n
  | inr n => exists cols', parseTags_loop fieldname clauses cols
                           = Ret (cols', Some (ErrNameRedefined n))
  end.
Proof.
  induction clauses as [|t rest IH]; intros cols Hn Hs; [cbn; eauto|].
  apply Forall_cons in Hs as [Ht Hrest].
  destruct (decide (nameOnly t)) as [E|E].
  - rewrite (filter_cons_True nameOnly _ _ E). cbn [parseTags_loop nameResult].
    pose proof E as E'. unfold nameOnly in E'. rewrite E'. cbn [Z.eqb Pos.eqb].
    rewrite Hn, String.eqb_refl. cbn [negb].
    destruct (String.eqb_spec t fieldname) as [Et|Et].
    + specialize (IH (set_name t cols) Et Hrest).
      destruct (filter nameOnly rest) as [|n2 more] eqn:Ef; [|exact IH].
      cbn in IH. destruct IH as (cols' & Hl & Hname). exists cols'.
      split; [exact Hl | congruence].
    + pose proof (parseTags_loop_named fieldname rest (set_name t cols) Et Hrest) as Hnamed.
      destruct (filter nameOnly rest) as [|n2 more]; exact Hnamed.
  - rewrite (filter_cons_False nameOnly _ _ E), (parseTags_loop_keyed _ _ _ _ E Ht).
    apply IH; [now rewrite keyed_name | exact Hrest].
Qed.

(** X1: for a tag without a bare [sort=] clause, [parseTags] returns
    (it does not panic), and its display name and its error follow from
    the name-only clauses alone, as [nameResult] reads them. *)
Theorem parseTags_display_name fieldname tag :
  Forall sortable (Split tag ",") ->
  match nameResult fieldname (filter nameOnly (Split tag ",")) with
  | inl n => exists cols, parseTags fieldname tag = Ret (cols, None) /\ name cols = n
  | inr n => exists cols, parseTags fieldname tag = Ret (cols, Some (ErrNameRedefined n))
  end.
Proof. intros Hs. unfold parseTags. now apply parseTags_loop_names. Qed.

Lemma parseTags_display_name_witness :
  (exists cols, parseTags "CPU" "cpuName,format=%d,sort=-num" = Ret (cols, None)
                /\ name cols = "cpuName")
  /\ (exists cols, parseTags "CPU" "first,sort=+,second"
                   = Ret (cols, Some (ErrNameRedefined "first"))).
Proof.
  split.
  - apply (parseTags_display_name "CPU" "cpuName,format=%d,sort=-num").
    repeat constructor; intros _; vm_compute; reflexivity.
  - apply (parseTags_display_name "CPU" "first,sort=+,second").
    repeat constructor; intros _; vm_compute; reflexivity.
Defined.

Lemma default_last_cons {A} (d x : A) (l : list A) :
  default d (last (x :: l)) = default x (last l).
Proof. rewrite last_cons. destruct (last l); reflexivity. Qed.

Lemma parseTags_loop_fields fieldname clauses : forall cols cols',
  parseTags_loop fieldname clauses cols = Ret (cols', None) ->
  sort cols' = default (sort cols) (last (omap sortClause clauses))
  /\ format cols' = default (format cols) (last (omap formatClause clauses))
  /\ tags cols' = tags cols /\ number cols' = number cols.
Proof.
  induction clauses as [|t rest IH]; intros cols cols' H.
  - cbn in H. inversion H; subst. auto.
  - destruct (decide (nameOnly t)) as [E|E].
    + cbn [parseTags_loop] in H. pose proof E as E'. unfold nameOnly in E'.
      rewrite E' in H. cbn [Z.eqb Pos.eqb] in H.
      destruct (negb _); [discriminate|]. apply IH in H.
      cbn [omap list_omap]. unfold sortClause at 1, formatClause at 1.
      rewrite !(hasKey_nameOnly _ _ E). exact H.
    + destruct (parseTags_loop_keyed_step fieldname t rest cols E) as [Hp|Hk];
        [rewrite Hp in H; discriminate|].
      rewrite Hk in H. apply IH in H. destruct H as (Hs & Hf & Ht & Hn).
      cbn [omap list_omap]. unfold sortClause at 1, formatClause at 1.
      unfold keyed in Hs, Hf, Ht, Hn.
      destruct (hasKey sorting t) eqn:Ks.
      * rewrite (hasKey_sort_format _ Ks). rewrite default_last_cons. auto.
      * destruct (hasKey format_ t); [rewrite default_last_cons|]; auto.
Qed.

(** X2: when [parseTags] returns without error, the sort mode is the
    one of the last [sort=] clause ([sortNone] without such a clause),
    the format is the text after [format=] of the last such clause,
    unchanged ([%v] without one), and the raw tag is kept. *)
Theorem parseTags_last_clause_wins fieldname tag cols :
  parseTags fieldname tag = Ret (cols, None) ->
  sort cols = default sortNone (last (omap sortClause (Split tag ",")))
  /\ format cols = default "%v" (last (omap formatClause (Split tag ",")))
  /\ tags cols = tag.
Proof.
  unfold parseTags. intros H. apply parseTags_loop_fields in H.
  destruct H as (Hs & Hf & Ht & _). auto.
Qed.

Lemma parseTags_last_clause_wins_witness :
  exists cols,
    parseTags "Load" "format=%d,sort=+,load,format=%.1f=x,sort=-num" = Ret (cols, None)
    /\ sort cols = sortDescNum /\ format cols = "%.1f=x".
Proof.
  eexists. split; [reflexivity|].
  destruct (parseTags_last_clause_wins "Load" "format=%d,sort=+,load,format=%.1f=x,sort=-num" _ eq_refl)
    as (Hs & Hf & _).
  split; [exact Hs | exact Hf].
Defined.

Lemma Split_pieces s sep : Forall (fun piece => IndexByte piece sep = -1) (Split s sep).
Proof.
  induction s as [|ch s IH]; cbn [Split]; [repeat constructor|].
  destruct (Ascii.eqb ch sep) eqn:Ech; [constructor; [reflexivity | exact IH]|].
  destruct (Split s sep) as [|piece pieces].
  - repeat constructor. cbn. now rewrite Ech.
  - apply Forall_cons in IH as [Hp Hps]. constructor; [|exact Hps].
    cbn. now rewrite Ech, Hp.
Qed.

Lemma IndexByte_substring s c : forall n m,
  IndexByte s c = -1 -> IndexByte (substring n m s) c = -1.
Proof.
  induction s as [|ch s IH]; intros n m H.
  - destruct n, m; reflexivity.
  - apply IndexByte_absent_cons in H as [Hch Hs].
    destruct n as [|n]; [destruct m as [|m]; [reflexivity|]|].
    + cbn [substring IndexByte]. now rewrite Hch, IH.
    + cbn [substring]. now apply IH.
Qed.

Lemma keyed_comma_free t cols :
  IndexByte t "," = -1 ->
  IndexByte (format cols) "," = -1 -> IndexByte (format (keyed t cols)) "," = -1.
Proof.
  intros Ht Hc. unfold keyed.
  destruct (hasKey sorting t); [exact Hc|].
  destruct (hasKey format_ t); [|exact Hc].
  cbn. unfold argOf, slice. now apply IndexByte_substring.
Qed.

Lemma parseTags_loop_comma_free fieldname clauses : forall cols cols' err,
  Forall (fun t => IndexByte t "," = -1) clauses ->
  parseTags_loop fieldname clauses cols = Ret (cols', err) ->
  (IndexByte (format cols) "," = -1 -> IndexByte (format cols') "," = -1)
  /\ (IndexByte (name cols) "," = -1 -> IndexByte (name cols') "," = -1).
Proof.
  induction clauses as [|t rest IH]; intros cols cols' err Hc H.
  - cbn in H. inversion H; subst. auto.
  - apply Forall_cons in Hc as [Ht Hrest].
    destruct (decide (nameOnly t)) as [E|E].
    + cbn [parseTags_loop] in H. pose proof E as E'. unfold nameOnly in E'.
      rewrite E' in H. cbn [Z.eqb Pos.eqb] in H.
      destruct (negb _); [inversion H; subst; auto|].
      apply (IH _ _ _ Hrest) in H as [Hf Hn]. split; [exact Hf | intros _; now apply Hn].
    + destruct (parseTags_loop_keyed_step fieldname t rest cols E) as [Hp|Hk];
        [rewrite Hp in H; discriminate|].
      rewrite Hk in H. apply (IH _ _ _ Hrest) in H as [Hf Hn]. split.
      * intros Hfc. now apply Hf, keyed_comma_free.
      * now rewrite keyed_name in Hn.
Qed.

(** X3: whatever the tag, the format of the descriptor [parseTags]
    returns holds no comma, nor does the display name of a field whose
    own name holds none: what follows a comma inside a format is read as
    the next clause. *)
Theorem parseTags_no_comma fieldname tag cols err :
  parseTags fieldname tag = Ret (cols, err) ->
  IndexByte (format cols) "," = -1
  /\ (IndexByte fieldname "," = -1 -> IndexByte (name cols) "," = -1).
Proof.
  unfold parseTags. intros H.
  apply (parseTags_loop_comma_free _ _ _ _ _ (Split_pieces tag ",")) in H as [Hf Hn].
  split; [now apply Hf | exact Hn].
Qed.

Lemma parseTags_no_comma_witness :
  exists cols,
    parseTags "Ratio" "format=%d,%s" = Ret (cols, None)
    /\ format cols = "%d" /\ name cols = "%s" /\ IndexByte (format cols) "," = -1.
Proof.
  eexists. split; [reflexivity|]. split; [reflexivity|]. split; [reflexivity|].
  apply (proj1 (parseTags_no_comma "Ratio" "format=%d,%s" _ None eq_refl)).
Defined.

Lemma parseTags_loop_prefix fieldname pre l1 l2 :
  (forall cols, parseTags_loop fieldname l1 cols = parseTags_loop fieldname l2 cols) ->
  forall cols, parseTags_loop fieldname (pre ++ l1) cols
               = parseTags_loop fieldname (pre ++ l2) cols.
Proof.
  intros Hl. induction pre as [|t pre IH]; intros cols; [apply Hl|].
  cbn [app parseTags_loop].
  destruct (_ =? -1); [destruct (negb _); [reflexivity | apply IH]|].
  destruct (String.eqb _ sorting).
  - destruct (parseSort _ _ _); cbn [mbind exec_bind]; [apply IH | reflexivity].
  - destruct (String.eqb _ format_); apply IH.
Qed.

(** X4: a clause with an [=] whose key is neither [sort] nor [format]
    is ignored, wherever it stands in the tag. *)
Theorem parseTags_unknown_key_ignored fieldname pre t post cols :
  IndexByte t "=" <> -1 -> hasKey sorting t = false -> hasKey format_ t = false ->
  parseTags_loop fieldname (pre ++ t :: post) cols
  = parseTags_loop fieldname (pre ++ post) cols.
Proof.
  intros Hi Hs Hf. apply parseTags_loop_prefix. intros c.
  rewrite parseTags_loop_keyed.
  - unfold keyed. now rewrite Hs, Hf.
  - exact Hi.
  - intros Es. rewrite (hasKey_keyed _ _ Hi) in Hs. congruence.
Qed.

Lemma parseTags_unknown_key_ignored_witness :
  parseTags_loop "Load" ["load"; "unit=ms"; "sort=-"] zeroColumn
  = parseTags_loop "Load" ["load"; "sort=-"] zeroColumn.
Proof.
  apply (parseTags_unknown_key_ignored "Load" ["load"] "unit=ms" ["sort=-"] zeroColumn).
  - vm_compute. discriminate.
  - reflexivity.
  - reflexivity.
Defined.

(** * Further properties of schema derivation *)

Lemma fieldColumn_sorts f i column sorts :
  fieldColumn f i = Ret (column, sorts, None) ->
  sorts = declaresSort f /\ sort column = (if sorts then sort column else sortNone).
Proof.
  unfold fieldColumn, declaresSort. destruct (Tag f) as [tg|].
  - destruct (parseTags (Name f) tg) as [[c [e|]]|]; cbn; try discriminate.
    intros H. inversion H; subst. cbn.
    split; [reflexivity|]. now destruct (sort c).
  - intros H. inversion H; subst. auto.
Qed.

(** The loop over fields with distinct, fresh names: every field gets
    the descriptor [fieldColumn] computes for its index, the names are
    the display names of the visible fields in order, and the sort column
    is the last field that declares a sort mode. *)
Lemma ColumnInfo_loop_entries fields : forall i cols0 names0 sorting0 cols names sorting,
  ColumnInfo_loop fields i cols0 names0 sorting0 = Ret (cols, names, sorting, None) ->
  NoDup (map Name fields) ->
  (forall f, In f fields -> cols0 !! Name f = None) ->
  (forall j f, fields !! j = Some f ->
     exists column sorts,
       fieldColumn f (i + Z.of_nat j) = Ret (column, sorts, None)
       /\ cols !! Name f = Some column)
  /\ (forall k, is_Some (cols !! k) -> is_Some (cols0 !! k) \/ In k (map Name fields))
  /\ names = names0 ++ map (fun f => name (col cols (Name f))) (filter (visible cols) fields)
  /\ sorting = fold_left (fun acc f => if declaresSort f then Name f else acc) fields sorting0.
Proof.
  induction fields as [|f rest IH]; intros i cols0 names0 sorting0 cols names sorting H Hnd Hfresh.
  - cbn in H. inversion H; subst. repeat split; auto.
    + intros j f Hj. destruct j; discriminate.
    + now rewrite app_nil_r.
  - cbn [ColumnInfo_loop] in H.
    destruct (fieldColumn f i) as [[[column sorts] [e|]]|] eqn:Hfc; cbn in H; try discriminate.
    unfold addColumn in H.
    pose proof (NoDup_cons_1_1 _ _ Hnd) as Hnotin. pose proof (NoDup_cons_1_2 _ _ Hnd) as Hnd'.
    assert (Hfresh' : forall g, In g rest -> <[Name f := column]> cols0 !! Name g = None).
    { intros g Hg. rewrite lookup_insert_ne.
      - apply Hfresh. now right.
      - intros E. apply Hnotin. rewrite E. apply list_elem_of_In, in_map, Hg. }
    pose proof (ColumnInfo_loop_registry _ _ _ _ _ _ _ _ H Hnd' Hfresh') as (Hother & _).
    apply IH in H as (Hent & Hdom & Hnames & Hsort); [|exact Hnd'|exact Hfresh'].
    assert (Hf : cols !! Name f = Some column).
    { rewrite Hother; [apply lookup_insert_eq|].
      intros Hin. apply Hnotin. now apply list_elem_of_In. }
    assert (Hvis : visible cols f <-> name column <> "OMIT").
    { unfold visible, col. now rewrite Hf. }
    destruct (fieldColumn_sorts _ _ _ _ Hfc) as [Hs _].
    repeat split.
    + intros [|j] g Hj.
      * injection Hj as <-. exists column, sorts. rewrite Z.add_0_r. auto.
      * destruct (Hent j g Hj) as (d & so & Hd & Hl). exists d, so.
        split; [|exact Hl]. rewrite <- Hd. f_equal. lia.
    + intros k Hk. destruct (Hdom k Hk) as [Hin|Hin].
      * destruct (decide (Name f = k)) as [<-|Hne]; [right; now left|].
        left. now rewrite lookup_insert_ne in Hin.
      * right. now right.
    + rewrite Hnames. destruct (String.eqb_spec (name column) "OMIT") as [Hc|Hc].
      * rewrite (filter_cons_False (visible cols)) by (rewrite Hvis; tauto). reflexivity.
      * rewrite (filter_cons_True (visible cols)) by now apply Hvis.
        cbn [map]. unfold col at 2. rewrite Hf. cbn. now rewrite <- app_assoc.
    + rewrite Hsort. cbn [fold_left]. now rewrite Hs.
Qed.

(** X5: for a struct with distinct field names, the column names
    [ColumnInfo] returns are the display names the registry holds for the
    fields that are not OMIT, in declaration order. *)
Theorem ColumnInfo_column_names fs cols names sorting :
  NoDup (map Name (map fst fs)) ->
  ColumnInfo (Item (Struct fs)) = Ret (cols, names, sorting, None) ->
  names = map (fun f => name (col cols (Name f))) (filter (visible cols) (map fst fs)).
Proof.
  intros Hnd H. unfold ColumnInfo in H. destruct fs as [|[f0 v0] fs']; [discriminate|].
  apply ColumnInfo_loop_entries in H as (_ & _ & Hnames & _); [exact Hnames | exact Hnd|].
  intros; apply lookup_empty.
Qed.

Lemma ColumnInfo_column_names_witness :
  ["B"; "C"]
  = map (fun f => name (col (registryOf (Item (recABC "" "" ""))) (Name f)))
        (filter (visible (registryOf (Item (recABC "" "" "")))) shapeABC).
Proof.
  apply (ColumnInfo_column_names
           (combine shapeABC [VString ""; VString ""; VString ""]) _ _ "B").
  - compute_done.
  - vm_compute. reflexivity.
Defined.

(** X6: for a struct with distinct field names, the registry holds
    exactly one descriptor per field, under the field's name: for a field
    without tag the field name, the format [%v], no sort mode and the
    field's index; for a tagged field what [parseTags] returns, with the
    field's index. *)
Theorem ColumnInfo_registry_entries fs cols names sorting :
  NoDup (map Name (map fst fs)) ->
  ColumnInfo (Item (Struct fs)) = Ret (cols, names, sorting, None) ->
  (forall k, is_Some (cols !! k) <-> In k (map Name (map fst fs)))
  /\ forall j f, map fst fs !! j = Some f ->
       match Tag f with
       | None =>
           cols !! Name f
           = Some {| tags := ""; name := Name f; number := Z.of_nat j; format := "%v";
                     convfunc := None; sort := sortNone |}
       | Some tg =>
           exists d, parseTags (Name f) tg = Ret (d, None)
                     /\ cols !! Name f = Some (set_number (Z.of_nat j) d)
       end.
Proof.
  intros Hnd H. unfold ColumnInfo in H. destruct fs as [|[f0 v0] fs']; [discriminate|].
  apply ColumnInfo_loop_entries in H as (Hent & Hdom & _ & _); [|exact Hnd|].
  2:{ intros; apply lookup_empty. }
  split.
  - intros k. split.
    + intros Hk. destruct (Hdom k Hk) as [Hin|Hin]; [|exact Hin].
      rewrite lookup_empty in Hin. now destruct Hin.
    + intros Hin. apply in_map_iff in Hin as (f & <- & Hf).
      apply list_elem_of_In, list_elem_of_lookup in Hf as [j Hj].
      destruct (Hent j f Hj) as (d & so & _ & Hl). now rewrite Hl.
  - intros j f Hj. destruct (Hent j f Hj) as (d & so & Hfc & Hl).
    rewrite Z.add_0_l in Hfc. unfold fieldColumn in Hfc. destruct (Tag f) as [tg|].
    + destruct (parseTags (Name f) tg) as [[c [e|]]|]; cbn in Hfc; try discriminate.
      inversion Hfc; subst. exists c. auto.
    + inversion Hfc; subst. exact Hl.
Qed.

Lemma ColumnInfo_registry_entries_witness :
  registryOf (Item (recABC "" "" "")) !! "C"
  = Some {| tags := ""; name := "C"; number := 2; format := "%v";
            convfunc := None; sort := sortNone |}.
Proof.
  apply (proj2 (ColumnInfo_registry_entries
                  (combine shapeABC [VString ""; VString ""; VString ""]) _ ["B"; "C"] "B"
                  ltac:(compute_done) ltac:(vm_compute; reflexivity)) 2%nat (field "C")).
  reflexivity.
Defined.

Lemma fold_left_no_sort fields : forall acc,
  Forall (fun f => declaresSort f = false) fields ->
  fold_left (fun acc f => if declaresSort f then Name f else acc) fields acc = acc.
Proof.
  induction fields as [|g l IH]; intros acc Hno; [reflexivity|].
  apply Forall_cons in Hno as [Hg Hl]. cbn [fold_left]. rewrite Hg. now apply IH.
Qed.

(** X7: when no tag of a struct (with distinct field names) declares
    a sort mode, the sort column [ColumnInfo] returns is the first field,
    and the registry holds for it the index 0 and no sort mode, so that
    the rows are compared ascending on their first cell position. *)
Theorem ColumnInfo_default_sort_column f0 v0 fs cols names sorting :
  NoDup (map Name (map fst ((f0, v0) :: fs))) ->
  Forall (fun f => declaresSort f = false) (map fst ((f0, v0) :: fs)) ->
  ColumnInfo (Item (Struct ((f0, v0) :: fs))) = Ret (cols, names, sorting, None) ->
  sorting = Name f0
  /\ number (col cols sorting) = 0 /\ sort (col cols sorting) = sortNone.
Proof.
  intros Hnd Hno H. unfold ColumnInfo in H.
  apply ColumnInfo_loop_entries in H as (Hent & _ & _ & Hsort); [|exact Hnd|].
  2:{ intros; apply lookup_empty. }
  assert (Hs : sorting = Name f0).
  { rewrite Hsort. now apply fold_left_no_sort. }
  split; [exact Hs|]. rewrite Hs.
  destruct (Hent 0%nat f0 eq_refl) as (d & so & Hfc & Hl).
  unfold col. rewrite Hl. simpl.
  split; [exact (fieldColumn_number _ _ _ _ _ Hfc)|].
  destruct (fieldColumn_sorts _ _ _ _ Hfc) as [Hso Hsd].
  apply Forall_cons in Hno as [Hf0 _]. cbn in Hf0. rewrite Hso, Hf0 in Hsd. exact Hsd.
Qed.

Lemma ColumnInfo_default_sort_column_witness :
  exists cols names sorting,
    ColumnInfo (Item (recIdCount (VInt 0) (VInt 0))) = Ret (cols, names, sorting, None)
    /\ sorting = "ID" /\ number (col cols sorting) = 0 /\ sort (col cols sorting) = sortNone.
Proof.
  eexists _, _, _. split; [vm_compute; reflexivity|].
  eapply (ColumnInfo_default_sort_column (tagged "ID" "OMIT") (VInt 0) [(field "Count", VInt 0)]).
  - compute_done.
  - repeat constructor.
  - vm_compute. reflexivity.
Defined.

(** * Further properties of the row builders *)

Section DirectMode.
Context {L : GoLib}.

Lemma renderCells_cells (c : Columns) fs : forall cells,
  renderCells c (map fst fs) (map snd fs) cells
  = cells ++ map (fun fv => Sprintf (format (col c (Name fv.1))) fv.2)
                 (filter (fun fv => visible c fv.1) fs).
Proof.
  induction fs as [|[f v] fs IH]; intros cells; [now rewrite app_nil_r|].
  cbn [map fst snd renderCells].
  destruct (decide (visible c f)) as [Hv|Hv].
  - rewrite (omit_test_visible c f Hv), IH.
    rewrite (filter_cons_True (fun fv => visible c fv.1)) by exact Hv.
    cbn [map fst snd]. now rewrite <- app_assoc.
  - rewrite (omit_test_omitted c f Hv), IH.
    now rewrite (filter_cons_False (fun fv => visible c fv.1)) by exact Hv.
Qed.

Lemma renderRow_cells (c : Columns) x : renderRow c (Some x) = cellsOf c x.
Proof.
  destruct x as [fs|]; [|reflexivity]. unfold renderRow. cbn [rowFromStruct fieldsOf cellsOf].
  apply (renderCells_cells c fs []).
Qed.


Lemma MapIndex_NoDup r : 
  NoDup (map fst r) ->
  map (fun k => MapIndex r k) (map fst r) = map (fun kv => Some kv.2) r.
Proof.
  induction r as [|[k x] r IH]; intros Hnd; [reflexivity|].
  cbn [map fst snd MapIndex]. rewrite String.eqb_refl. f_equal.
  pose proof (NoDup_cons_1_1 _ _ Hnd) as Hk.
  rewrite <- IH by exact (NoDup_cons_1_2 _ _ Hnd).
  apply map_ext_in. intros k' Hk'.
  destruct (String.eqb_spec k k') as [->|_]; [|reflexivity].
  exfalso. apply Hk. now apply list_elem_of_In.
Qed.

(** X9: on a map (with its keys distinct, as in Go) [RowsFromMap]
    hands the rows of its entries, rendered as in [RowsFromSlice], to the
    row sorter; what it returns is then without error and a reordering of
    these rows, one per entry. *)
Theorem RowsFromMap_rows (s : Samplers) r rows err :
  NoDup (map fst r) ->
  RowsFromMap s (Map r) = Ret (rows, err) ->
  err = None
  /\ sortRows (columns s) (map (fun kv => cellsOf (columns s) kv.2) r) (sortcolumn s) = Ret rows
  /\ Permutation (map (fun kv => cellsOf (columns s) kv.2) r) rows
  /\ length rows = length r.
Proof.
  intros Hnd H. unfold RowsFromMap in H.
  assert (Hrows : map (fun k => renderRow (columns s) (MapIndex r k)) (map fst r)
                  = map (fun kv => cellsOf (columns s) kv.2) r).
  { rewrite <- (map_map (fun k => MapIndex r k) (renderRow (columns s))).
    rewrite (MapIndex_NoDup r Hnd), map_map. apply map_ext. intros kv. apply renderRow_cells. }
  rewrite Hrows in H.
  destruct (sortRows _ _ _) as [rows1|] eqn:Hs; cbn in H; [|discriminate].
  inversion H; subst. pose proof (sortRows_perm _ _ _ _ Hs) as Hp.
  repeat split; [exact Hp|]. rewrite <- (Permutation_length Hp). apply length_map.
Qed.

End DirectMode.

Lemma RowsFromMap_rows_witness :
  let s := samplerOf (registryOf (Item (recABC "" "" ""))) ["B"; "C"] "B" in
  let r := [("k1", recABC "x" "a" "z"); ("k2", recABC "y" "b" "y")] in
  Permutation (map (fun kv => cellsOf (columns s) kv.2) r) [["b"; "y"]; ["a"; "z"]].
Proof.
  intros s r.
  apply (RowsFromMap_rows (L := exampleLib) s r [["b"; "y"]; ["a"; "z"]] None).
  - compute_done.
  - vm_compute. reflexivity.
Defined.


(** * Further properties of the row sorter *)

Section InsertionSorted.
Context {A : Type} (lessf : A -> A -> exec bool) (R : A -> A -> Prop).
Hypothesis R_trans : forall x y z, R x y -> R y z -> R x z.
Hypothesis less_R : forall x y b, lessf x y = Ret b -> if b then R x y else R y x.

Lemma insertBack_sorted x rp : forall r,
  insertBack lessf x rp = Ret r ->
  StronglySorted (flip R) rp -> StronglySorted (flip R) r.
Proof.
  induction rp as [|y ys IH]; intros r H Hs; cbn in H.
  - inversion H. repeat constructor.
  - destruct (lessf x y) as [b|] eqn:Hb; cbn in H; [|discriminate].
    apply less_R in Hb. apply StronglySorted_inv in Hs as [Hys Hy].
    destruct b.
    + destruct (insertBack lessf x ys) as [r'|] eqn:E; cbn in H; [|discriminate].
      inversion H; subst. constructor; [now apply IH|].
      apply insertBack_perm in E. rewrite <- E. constructor; [exact Hb | exact Hy].
    + inversion H; subst. constructor; [now constructor|].
      constructor; [exact Hb|].
      rewrite Forall_forall in *. intros z Hz. unfold flip in *.
      eapply R_trans; [apply Hy, Hz | exact Hb].
Qed.

Lemma StronglySorted_rev_flip (l : list A) :
  StronglySorted (flip R) l -> StronglySorted R (rev l).
Proof.
  induction l as [|x l IH]; intros Hs; [constructor|].
  apply StronglySorted_inv in Hs as [Hl Hx]. cbn [rev].
  apply StronglySorted_app_2; [| now apply IH | repeat constructor].
  intros a b Ha Hb. apply list_elem_of_In, in_rev in Ha.
  apply list_elem_of_singleton in Hb as ->.
  rewrite Forall_forall in Hx. apply Hx, list_elem_of_In, Ha.
Qed.

Lemma insertionSort_loop_sorted rest : forall rp l',
  insertionSort_loop lessf rp rest = Ret l' ->
  StronglySorted (flip R) rp -> StronglySorted R l'.
Proof.
  induction rest as [|x rest IH]; intros rp l' H Hs; cbn in H.
  - inversion H. now apply StronglySorted_rev_flip.
  - destruct (insertBack lessf x rp) as [p|] eqn:E; cbn in H; [|discriminate].
    eapply IH; [exact H|]. eapply insertBack_sorted; eauto.
Qed.

Lemma sort_Slice_sorted l l' : sort_Slice lessf l = Ret l' -> StronglySorted R l'.
Proof. intros H. eapply insertionSort_loop_sorted; [exact H | constructor]. Qed.
End InsertionSorted.

Lemma str_ltb_le a b : str_ltb a b = true -> String.le a b.
Proof.
  unfold str_ltb, String.ltb, String.le, String.leb.
  destruct (String.compare a b); [discriminate | intros _; exact I | discriminate].
Qed.

Lemma str_ltb_ge a b : str_ltb a b = false -> String.le b a.
Proof.
  unfold str_ltb, String.ltb, String.le, String.leb.
  rewrite (String.compare_antisym b a).
  destruct (String.compare a b); cbn; [intros _; exact I | discriminate | intros _; exact I].
Qed.

Section SortedRows.
Context {L : GoLib}.

Lemma cell_cellAt row sortby s : cell row sortby = Ret s -> s = cellAt sortby row.
Proof.
  unfold cell, cellAt. destruct (sortby <? 0); [discriminate|].
  destruct (row !! Z.to_nat sortby); [|discriminate]. intros H. now inversion H.
Qed.

Lemma cell_hasCell row sortby : hasCell sortby row -> exists s, cell row sortby = Ret s.
Proof. intros [H0 Hlt]. now apply cell_in_range. Qed.

Lemma cell_not_hasCell row sortby :
  ~ hasCell sortby row -> cell row sortby = Panic IndexOutOfRange.
Proof.
  intros Hn. unfold cell. destruct (Z.ltb_spec sortby 0) as [?|H0]; [reflexivity|].
  rewrite (lookup_ge_None_2 row (Z.to_nat sortby)); [reflexivity|].
  unfold hasCell in Hn. lia.
Qed.

Lemma inOrder_trans sorttype sortby r1 r2 r3 :
  inOrder sorttype sortby r1 r2 -> inOrder sorttype sortby r2 r3 ->
  inOrder sorttype sortby r1 r3.
Proof.
  unfold inOrder. destruct sorttype; try tauto; intros H1 H2.
  - etrans; eauto.
  - etrans; eauto.
  - etrans; eauto.
Qed.

Lemma less_inOrder sorttype sortby ra rb b :
  less sorttype sortby ra rb = Ret b ->
  if b then inOrder sorttype sortby ra rb else inOrder sorttype sortby rb ra.
Proof.
  unfold less. destruct (cell ra sortby) as [sa|] eqn:Ha; [|discriminate].
  destruct (cell rb sortby) as [sb|] eqn:Hb; [|discriminate]. cbn [mbind exec_bind].
  apply cell_cellAt in Ha, Hb. subst sa sb. unfold inOrder.
  destruct sorttype; try (destruct b; tauto);
    intros H; inversion H; subst; clear H; unfold str_geb, str_ltb;
    destruct (String.ltb (cellAt sortby ra) (cellAt sortby rb)) eqn:E; cbn [negb];
    first [now apply str_ltb_le | now apply str_ltb_ge].
Qed.

(** X10: when every row has the cell the sorter reads (and there are
    at most 12 rows, for which [sort.Slice] is the insertion sort
    modelled), the sorter returns a reordering of the rows in which, for
    the modes none and ascending, the compared cells never decrease in
    bytewise order, and for the mode descending never increase. *)
Theorem sortRows_sorted (c : Columns) (rows : list (list string)) (sortcol : string) :
  (length rows <= 12)%nat ->
  Forall (hasCell (number (col c sortcol))) rows ->
  exists rows',
    sortRows c rows sortcol = Ret rows'
    /\ Permutation rows rows'
    /\ StronglySorted (inOrder (sort (col c sortcol)) (number (col c sortcol))) rows'.
Proof.
  intros _ Hcells. destruct rows as [|row rows].
  { exists []. repeat split; constructor. }
  destruct (sortRows_returns c (row :: rows) sortcol) as (rows' & Hs & Hp).
  - apply Forall_cons in Hcells as [[H0 _] _]. exact H0.
  - intros r Hr. rewrite Forall_forall in Hcells.
    now apply Hcells, list_elem_of_In.
  - exists rows'. repeat split; [exact Hs | exact Hp|].
    eapply sort_Slice_sorted; [apply inOrder_trans | apply less_inOrder | exact Hs].
Qed.
End SortedRows.

Lemma sortRows_sorted_witness :
  let c : Columns := <["v" := set_sort sortDesc zeroColumn]> ∅ in
  exists rows',
    @sortRows exampleLib c [["b"]; ["c"]; ["a"]; ["c"]] "v" = Ret rows'
    /\ Permutation [["b"]; ["c"]; ["a"]; ["c"]] rows'
    /\ StronglySorted (inOrder (sort (col c "v")) (number (col c "v"))) rows'.
Proof.
  intros c.
  apply (sortRows_sorted (L := exampleLib) c [["b"]; ["c"]; ["a"]; ["c"]] "v").
  - cbn. lia.
  - compute_done.
Defined.

Section InsertionPanics.
Context {A : Type} (lessf : A -> A -> exec bool) (good : A -> Prop).
Hypothesis less_good : forall x y, good x -> good y -> exists b, lessf x y = Ret b.
Hypothesis less_bad : forall x y, ~ good x \/ ~ good y -> lessf x y = Panic IndexOutOfRange.
Hypothesis good_dec : forall x, {good x} + {~ good x}.

Lemma insertionSort_loop_panics rest : forall rp,
  rp <> [] -> rest <> [] ->
  (length rp = 1%nat \/ Forall good rp) ->
  (Exists (fun x => ~ good x) rp \/ Exists (fun x => ~ good x) rest) ->
  insertionSort_loop lessf rp rest = Panic IndexOutOfRange.
Proof.
  induction rest as [|x rest IH]; intros rp Hrp Hrest Hinv Hbad; [contradiction|].
  destruct rp as [|y ys]; [contradiction|]. cbn [insertionSort_loop insertBack].
  destruct (good_dec x) as [Gx|Bx]; [|rewrite less_bad by (now left); reflexivity].
  destruct (good_dec y) as [Gy|By]; [|rewrite less_bad by (now right); reflexivity].
  assert (Hall : Forall good (y :: ys)).
  { destruct Hinv as [Hlen|Hall]; [|exact Hall].
    destruct ys; [repeat constructor; exact Gy | discriminate]. }
  assert (Hin : Exists (fun x => ~ good x) rest).
  { destruct Hbad as [Hb|Hb].
    - exfalso. apply Exists_exists in Hb as (z & Hz & Bz).
      rewrite Forall_forall in Hall. now apply Bz, Hall.
    - apply Exists_cons in Hb as [Hb|Hb]; [contradiction | exact Hb]. }
  destruct (insertBack_returns lessf x (y :: ys)) as [p Hp].
  { intros z Hz. apply less_good; [exact Gx|].
    rewrite Forall_forall in Hall. now apply Hall, list_elem_of_In. }
  cbn [insertBack] in Hp. rewrite Hp. cbn [mbind exec_bind].
  pose proof (insertBack_perm lessf x (y :: ys) p Hp) as Hperm.
  apply IH.
  - intros ->. apply Permutation_sym, Permutation_nil in Hperm. discriminate.
  - intros ->. inversion Hin.
  - right. rewrite <- Hperm. constructor; [exact Gx | exact Hall].
  - now right.
Qed.

Lemma sort_Slice_panics l :
  (2 <= length l)%nat -> Exists (fun x => ~ good x) l ->
  sort_Slice lessf l = Panic IndexOutOfRange.
Proof.
  intros Hlen Hbad. destruct l as [|x0 [|x1 rest]]; cbn in Hlen; try lia.
  change (sort_Slice lessf (x0 :: x1 :: rest))
    with (insertionSort_loop lessf [x0] (x1 :: rest)).
  apply insertionSort_loop_panics.
  - discriminate.
  - discriminate.
  - now left.
  - apply Exists_cons in Hbad as [Hb|Hb]; [left; now constructor | now right].
Qed.
End InsertionPanics.

(** X11: the sorter panics (index out of range) exactly when there are
    at least two rows and one of them lacks the cell at the index the
    registry holds for the sort column; in every other case it returns,
    and with fewer than two rows it returns them untouched, whatever the
    index. *)
Theorem sortRows_panics_iff {L : GoLib} (c : Columns) (rows : list (list string))
    (sortcol : string) :
  (sortRows c rows sortcol = Panic IndexOutOfRange
   <-> (2 <= length rows)%nat
       /\ Exists (fun row => ~ hasCell (number (col c sortcol)) row) rows)
  /\ ((length rows < 2)%nat -> sortRows c rows sortcol = Ret rows)
  /\ forall p, sortRows c rows sortcol = Panic p -> p = IndexOutOfRange.
Proof.
  set (n := number (col c sortcol)).
  assert (Hpanic : (2 <= length rows)%nat -> Exists (fun row => ~ hasCell n row) rows ->
                   sortRows c rows sortcol = Panic IndexOutOfRange).
  { intros Hlen Hbad. unfold sortRows. subst n.
    apply (sort_Slice_panics _ (hasCell (number (col c sortcol)))); try assumption.
    - intros x y Gx Gy. destruct Gx, Gy. now apply less_returns.
    - intros x y [Bx|By]; unfold less.
      + now rewrite (cell_not_hasCell _ _ Bx).
      + destruct (decide (hasCell (number (col c sortcol)) x)) as [Gx|Bx].
        * destruct (cell_hasCell _ _ Gx) as [sa ->]. cbn [mbind exec_bind].
          now rewrite (cell_not_hasCell _ _ By).
        * now rewrite (cell_not_hasCell _ _ Bx).
    - intros x. destruct (decide (hasCell (number (col c sortcol)) x)); [now left | now right]. }
  assert (Hshort : (length rows < 2)%nat -> sortRows c rows sortcol = Ret rows).
  { intros Hlen. destruct rows as [|r [|r' rows]]; cbn in Hlen; try lia; reflexivity. }
  assert (Hret : Forall (hasCell n) rows -> exists rows', sortRows c rows sortcol = Ret rows').
  { intros Hall. destruct rows as [|row rows]; [eexists; reflexivity|].
    destruct (sortRows_returns c (row :: rows) sortcol) as (rows' & Hs & _).
    - apply Forall_cons in Hall as [[H0 _] _]. exact H0.
    - intros r Hr. rewrite Forall_forall in Hall. now apply Hall, list_elem_of_In.
    - eauto. }
  assert (Hcases : forall p, sortRows c rows sortcol = Panic p ->
                   (2 <= length rows)%nat /\ Exists (fun row => ~ hasCell n row) rows).
  { intros p Hp. split.
    - destruct (le_lt_dec 2 (length rows)) as [H|H]; [exact H|].
      rewrite (Hshort H) in Hp. discriminate.
    - destruct (decide (Forall (hasCell n) rows)) as [Hall|Hnall].
      + destruct (Hret Hall) as [rows' Hr]. rewrite Hr in Hp. discriminate.
      + now apply not_Forall_Exists in Hnall; [|intros x; apply _]. }
  split; [split|split].
  - apply Hcases.
  - intros [Hlen Hbad]. now apply Hpanic.
  - exact Hshort.
  - intros p Hp. destruct (Hcases p Hp) as [Hlen Hbad].
    rewrite (Hpanic Hlen Hbad) in Hp. now inversion Hp.
Qed.

Lemma sortRows_panics_iff_witness :
  let c : Columns := <["B" := set_number 1 zeroColumn]> ∅ in
  @sortRows exampleLib c [["a"]; ["b"]] "B" = Panic IndexOutOfRange.
Proof.
  intros c.
  apply (proj2 (proj1 (sortRows_panics_iff (L := exampleLib) c [["a"]; ["b"]] "B"))).
  split; [cbn; lia | compute_done].
Defined.

(** * Further properties of delta mode and publishing *)

Section DeltaPlain.
Context {L : GoLib}.

Lemma deltaCells_plain (c : Columns) interval t : forall rawcells rawold i cells,
  length t = length rawcells ->
  (forall j f newcell, t !! j = Some f -> visible c f -> rawcells !! j = Some newcell ->
     exists oldcell, rawold !! (i + j)%nat = Some oldcell
                     /\ TypeOf oldcell = TypeOf newcell
                     /\ ConvertibleToFloat (TypeOf newcell) = false) ->
  deltaCells c interval t rawcells rawold i cells
  = Ret (inl (renderCells c t rawcells cells)).
Proof.
  induction t as [|f t IH]; intros [|v rawcells] rawold i cells Hlen Hf; try discriminate.
  - reflexivity.
  - injection Hlen as Hlen. cbn [deltaCells renderCells].
    assert (Hrest : forall cells',
      deltaCells c interval t rawcells rawold (S i) cells'
      = Ret (inl (renderCells c t rawcells cells'))).
    { intros cells'. apply IH; [exact Hlen|]. intros j g nc Hj Hg Hn.
      destruct (Hf (S j) g nc Hj Hg Hn) as (oc & Ho & Ht & Hc).
      exists oc. split; [|auto]. now replace (S i + j)%nat with (i + S j)%nat by lia. }
    destruct (decide (visible c f)) as [Hv|Hv].
    + rewrite (omit_test_visible c f Hv).
      destruct (Hf 0%nat f v eq_refl Hv eq_refl) as (oc & Ho & Ht & Hc).
      rewrite Nat.add_0_r in Ho. rewrite Ho, Ht.
      replace (type_eqb (TypeOf v) (TypeOf v)) with true
        by (symmetry; now apply type_eqb_eq).
      cbn [negb]. unfold toFloat at 1. rewrite Hc. cbn [negb]. 
      destruct (toFloat oc) as [oldfloat oerr]. apply Hrest.
    + rewrite (omit_test_omitted c f Hv). apply Hrest.
Qed.

Lemma deltaRows_plain (c : Columns) interval rnew rold keys : forall rows,
  (forall k, In k keys ->
     deltaRow c interval rnew rold k = Ret (inl (renderRow c (MapIndex rnew k)))) ->
  deltaRows c interval rnew rold keys rows
  = Ret (rows ++ map (fun k => renderRow c (MapIndex rnew k)) keys, None).
Proof.
  induction keys as [|k keys IH]; intros rows Hk.
  - cbn. now rewrite app_nil_r.
  - cbn [deltaRows map]. rewrite (Hk k) by now left. cbn [mbind exec_bind].
    rewrite IH by (intros; apply Hk; now right). now rewrite <- app_assoc.
Qed.

(** X12: when, for every entry of the current collection, the
    previous collection has the key and every visible field holds, on
    both sides, values of one type that does not convert to [float64]
    (strings, booleans), delta mode gives what direct mode gives on the
    current collection, whatever the interval: such fields are rendered
    from the current value alone. *)
Theorem RowsFromMapDelta_non_numeric (s : Samplers) rnew rold interval :
  (forall k fsn, In k (map fst rnew) -> MapIndex rnew k = Some (Struct fsn) ->
     exists fso, MapIndex rold k = Some (Struct fso)
       /\ forall j f newcell, fsn !! j = Some (f, newcell) -> visible (columns s) f ->
            exists g oldcell, fso !! j = Some (g, oldcell)
              /\ TypeOf oldcell = TypeOf newcell
              /\ ConvertibleToFloat (TypeOf newcell) = false) ->
  RowsFromMapDelta s (Map rnew) (Map rold) interval = RowsFromMap s (Map rnew).
Proof.
  intros Hplain. unfold RowsFromMapDelta, RowsFromMap.
  rewrite deltaRows_plain; [reflexivity|].
  intros k Hk. unfold deltaRow, renderRow.
  destruct (MapIndex_In rnew k Hk) as (x & Hx & _). rewrite Hx.
  destruct x as [fsn|]; [|destruct (rowFromStruct _ (MapIndex rold k)); reflexivity].
  destruct (Hplain k fsn Hk Hx) as (fso & Ho & Hfields). rewrite Ho.
  cbn [rowFromStruct fieldsOf]. apply deltaCells_plain; [now rewrite !length_map|].
  intros j f newcell Hj Hv Hn. rewrite lookup_map in Hj. rewrite lookup_map in Hn.
  destruct (fsn !! j) as [[f' v']|] eqn:Hfj; [|discriminate].
  cbn in Hj, Hn. injection Hj as ->. injection Hn as ->.
  destruct (Hfields j f newcell Hfj Hv) as (g & oldcell & Hg & Ht & Hc).
  exists oldcell. rewrite Nat.add_0_l, lookup_map, Hg. auto.
Qed.
End DeltaPlain.

Lemma RowsFromMapDelta_non_numeric_witness :
  let s := samplerOf (registryOf (Item (recABC "" "" ""))) ["B"; "C"] "B" in
  RowsFromMapDelta s
    (Map [("k1", recABC "x" "a" "z"); ("k2", recABC "y" "b" "y")])
    (Map [("k2", recABC "p" "q" "r"); ("k1", recABC "u" "v" "w")]) (7 * Second)
  = RowsFromMap s (Map [("k1", recABC "x" "a" "z"); ("k2", recABC "y" "b" "y")]).
Proof.
  intros s. apply (RowsFromMapDelta_non_numeric (L := exampleLib)).
  intros k fsn [<-|[<-|[]]] Hx; cbn in Hx; inversion Hx; subst; clear Hx;
    (eexists; split; [reflexivity|]);
    intros [|[|[|j]]] f newcell Hj Hv; cbn in Hj; inversion Hj; subst;
    eexists _, _; (split; [reflexivity|]); split; reflexivity.
Defined.



(** * The xmlrpc package *)

Lemma cut_app_none g sep rest :
  Xmlrpc.cut g sep = None -> Xmlrpc.cut (g ++ String sep rest)%string sep = Some (g, rest).
Proof.
  induction g as [|ch g IH]; intros H; simpl.
  - now rewrite Ascii.eqb_refl.
  - simpl in H. destruct (Ascii.eqb ch sep); [discriminate|].
    destruct (Xmlrpc.cut g sep) as [[a b]|]; [discriminate|]. now rewrite IH.
Qed.

Lemma cut_app_some g sep a b rest :
  Xmlrpc.cut g sep = Some (a, b) ->
  Xmlrpc.cut (g ++ rest)%string sep = Some (a, (b ++ rest)%string).
Proof.
  revert a. induction g as [|ch g IH]; intros a H; simpl in H; [discriminate|].
  simpl. destruct (Ascii.eqb ch sep); [now inversion H|].
  destruct (Xmlrpc.cut g sep) as [[a' b']|]; [|discriminate].
  inversion H; subst. now rewrite (IH a' eq_refl).
Qed.

Lemma cut_shorter g sep a b :
  Xmlrpc.cut g sep = Some (a, b) -> (String.length a < String.length g)%nat.
Proof.
  revert a. induction g as [|ch g IH]; intros a H; simpl in H; [discriminate|].
  destruct (Ascii.eqb ch sep); [inversion H; subst; simpl; lia|].
  destruct (Xmlrpc.cut g sep) as [[a' b']|]; [|discriminate].
  inversion H; subst. simpl. specialize (IH a' eq_refl). lia.
Qed.

(** X14: the name and group that [DataviewGroupNames] reads back from
    a dataview named by [SetDataviewName] are the ones given exactly when
    the group name holds no dash (the view name may); with a dash in the
    group the aggregated name is cut at that dash instead. *)
Theorem DataviewGroupNames_SetDataviewName d view group :
  (Xmlrpc.DataviewGroupNames (Xmlrpc.SetDataviewName d view group) = Ret (view, group)
   <-> Xmlrpc.cut group "-" = None)
  /\ forall g1 g2, Xmlrpc.cut group "-" = Some (g1, g2) ->
       Xmlrpc.DataviewGroupNames (Xmlrpc.SetDataviewName d view group)
       = Ret ((g2 ++ "-" ++ view)%string, g1).
Proof.
  assert (Hsome : forall g1 g2, Xmlrpc.cut group "-" = Some (g1, g2) ->
            Xmlrpc.DataviewGroupNames (Xmlrpc.SetDataviewName d view group)
            = Ret ((g2 ++ "-" ++ view)%string, g1)).
  { intros g1 g2 H. unfold Xmlrpc.DataviewGroupNames, Xmlrpc.SetDataviewName, Xmlrpc.SplitN2.
    cbn [Xmlrpc.dataviewName]. now rewrite (cut_app_some _ _ _ _ _ H). }
  split; [split|exact Hsome].
  - intros H. destruct (Xmlrpc.cut group "-") as [[g1 g2]|] eqn:Hc; [|reflexivity].
    rewrite (Hsome g1 g2 eq_refl) in H. inversion H; subst.
    apply cut_shorter in Hc. lia.
  - intros H. unfold Xmlrpc.DataviewGroupNames, Xmlrpc.SetDataviewName, Xmlrpc.SplitN2.
    cbn [Xmlrpc.dataviewName].
    change (group ++ "-" ++ view)%string with (group ++ String "-" view)%string.
    now rewrite (cut_app_none _ _ _ H).
Qed.

Lemma DataviewGroupNames_SetDataviewName_witness :
  let d := {| Xmlrpc.sampler := {| Xmlrpc.entityName := "e"; Xmlrpc.samplerName := "s" |};
             Xmlrpc.dataviewName := "" |} in
  Xmlrpc.DataviewGroupNames (Xmlrpc.SetDataviewName d "cpu-0" "SYSTEM") = Ret ("cpu-0", "SYSTEM")
  /\ Xmlrpc.DataviewGroupNames (Xmlrpc.SetDataviewName d "cpu" "a-b") = Ret ("b-cpu", "a").
Proof.
  intros d. split.
  - apply (proj1 (DataviewGroupNames_SetDataviewName d "cpu-0" "SYSTEM")). reflexivity.
  - apply (proj2 (DataviewGroupNames_SetDataviewName d "cpu" "a-b") "a" "b"). reflexivity.
Defined.

(** X15: [DataviewGroupNames] panics (index out of range) exactly on
    a dataview whose aggregated name holds no dash, as the zero
    [Dataview] has it; on every other it returns. *)
Theorem DataviewGroupNames_panics_iff d :
  (Xmlrpc.DataviewGroupNames d = Panic IndexOutOfRange
   <-> Xmlrpc.cut (Xmlrpc.dataviewName d) "-" = None)
  /\ forall p, Xmlrpc.DataviewGroupNames d = Panic p -> p = IndexOutOfRange.
Proof.
  unfold Xmlrpc.DataviewGroupNames, Xmlrpc.SplitN2.
  destruct (Xmlrpc.cut (Xmlrpc.dataviewName d) "-") as [[a b]|]; cbn.
  - split; [split; discriminate | discriminate].
  - split; [split; reflexivity | intros p H; now inversion H].
Qed.

Lemma DataviewGroupNames_panics_iff_witness :
  Xmlrpc.DataviewGroupNames
    {| Xmlrpc.sampler := exampleSampler; Xmlrpc.dataviewName := "" |}
  = Panic IndexOutOfRange.
Proof.
  apply (proj1 (DataviewGroupNames_panics_iff
                  {| Xmlrpc.sampler := exampleSampler; Xmlrpc.dataviewName := "" |})).
  reflexivity.
Defined.

(** Running a bind: the first part runs, then the rest from the state it
    left, and the calls follow one another. *)
Lemma run_bind {A B : Type} (np : Xmlrpc.netprobe) (m : Xmlrpc.rpc A)
    (k : A -> Xmlrpc.rpc B) (w : Xmlrpc.world np) :
  Xmlrpc.run np (m ≫= k) w =
  match Xmlrpc.run np m w with
  | (Xmlrpc.Returned a, w1, calls) =>
      let '(o, w2, calls2) := Xmlrpc.run np (k a) w1 in (o, w2, calls ++ calls2)
  | (Xmlrpc.Panicked p, w1, calls) => (Xmlrpc.Panicked p, w1, calls)
  | (Xmlrpc.Exited, w1, calls) => (Xmlrpc.Exited, w1, calls)
  end.
Proof.
  revert w. induction m as [a|X c k' IH|p|]; intros w; cbn.
  - change (Xmlrpc.run np (Xmlrpc.Done a ≫= k) w) with (Xmlrpc.run np (k a) w).
    destruct (Xmlrpc.run np (k a) w) as [[o w2] calls2]. reflexivity.
  - change (Xmlrpc.run np (Xmlrpc.Call c k' ≫= k) w)
      with (let '(x, w1) := Xmlrpc.answer np _ c w in
            let '(o, w2, calls) := Xmlrpc.run np (k' x ≫= k) w1 in
            (o, w2, Xmlrpc.sentCall c :: calls)).
    destruct (Xmlrpc.answer np X c w) as [x w1]. rewrite IH.
    destruct (Xmlrpc.run np (k' x) w1) as [[[a|p|] w2] calls]; try reflexivity.
    destruct (Xmlrpc.run np (k a) w2) as [[o w3] calls2]. reflexivity.
  - reflexivity.
  - reflexivity.
Qed.

Lemma run_IsValid (np : Xmlrpc.netprobe) d (w : Xmlrpc.world np) :
  Xmlrpc.run np (Xmlrpc.IsValid d) w =
  (Xmlrpc.Returned (exists_ (fst (Xmlrpc.answer np _ (askViewExists d) w))),
   snd (Xmlrpc.answer np _ (askViewExists d) w),
   [Xmlrpc.sentCall (askViewExists d)]).
Proof.
  unfold Xmlrpc.IsValid, askViewExists, Xmlrpc.EntityName, Xmlrpc.SamplerName,
    Xmlrpc.DataviewName. cbn.
  destruct (Xmlrpc.answer np _ _ w) as [[res [e|]] w1]; reflexivity.
Qed.

Lemma created_names_no_dash s view group :
  Xmlrpc.cut group "-" = None ->
  Xmlrpc.DataviewGroupNames
    {| Xmlrpc.sampler := s; Xmlrpc.dataviewName := (group ++ "-" ++ view)%string |}
  = Ret (view, group).
Proof.
  intros H. unfold Xmlrpc.DataviewGroupNames, Xmlrpc.SplitN2. cbn [Xmlrpc.dataviewName].
  change (group ++ "-" ++ view)%string with (group ++ String "-" view)%string.
  now rewrite (cut_app_none _ _ _ H).
Qed.

Lemma created_names_dash s view group g1 g2 :
  Xmlrpc.cut group "-" = Some (g1, g2) ->
  Xmlrpc.DataviewGroupNames
    {| Xmlrpc.sampler := s; Xmlrpc.dataviewName := (group ++ "-" ++ view)%string |}
  = Ret ((g2 ++ "-" ++ view)%string, g1).
Proof.
  intros H. unfold Xmlrpc.DataviewGroupNames, Xmlrpc.SplitN2. cbn [Xmlrpc.dataviewName].
  now rewrite (cut_app_some _ _ _ _ _ H).
Qed.

Lemma run_Close (np : Xmlrpc.netprobe) d v g (w : Xmlrpc.world np) :
  Xmlrpc.DataviewGroupNames d = Ret (v, g) ->
  Xmlrpc.run np (Xmlrpc.Close d) w =
  let r := Xmlrpc.answer np _ (askViewExists d) w in
  let rm := Xmlrpc.removeView (Xmlrpc.entityName (Xmlrpc.sampler d))
              (Xmlrpc.samplerName (Xmlrpc.sampler d)) v g in
  if exists_ (fst r)
  then (Xmlrpc.Returned (fst (Xmlrpc.answer np _ rm (snd r))),
        snd (Xmlrpc.answer np _ rm (snd r)),
        [Xmlrpc.sentCall (askViewExists d); Xmlrpc.sentCall rm])
  else (Xmlrpc.Returned None, snd r, [Xmlrpc.sentCall (askViewExists d)]).
Proof.
  intros Hn. unfold Xmlrpc.Close. rewrite run_bind, run_IsValid. cbn zeta.
  destruct (exists_ (fst (Xmlrpc.answer np _ (askViewExists d) w))); cbn [negb].
  - rewrite Hn. cbn.
    destruct (Xmlrpc.answer np _ _ (snd (Xmlrpc.answer np _ (askViewExists d) w)))
      as [e w2]. reflexivity.
  - reflexivity.
Qed.

(** X16: closing the dataview that [CreateDataview] returned.  One
    [createView] call is made for the view and group given; [Close] then
    asks whether the aggregated name exists and, if so, makes one
    [removeView] call and returns its answer.  That call names the view
    and group given to [createView] when the group holds no dash; when it
    does, the aggregated name is cut at the group's first dash and another
    view is named. Neither method panics. *)
Theorem Close_after_CreateDataview (np : Xmlrpc.netprobe) s view group
    (w : Xmlrpc.world np) :
  let e := Xmlrpc.entityName s in
  let sm := Xmlrpc.samplerName s in
  let d := {| Xmlrpc.sampler := s; Xmlrpc.dataviewName := (group ++ "-" ++ view)%string |} in
  let created := Xmlrpc.answer np _ (Xmlrpc.createView e sm view group) w in
  let r := Xmlrpc.answer np _ (Xmlrpc.viewExists e sm (group ++ "-" ++ view)%string)
             (snd created) in
  let closing v g :=
    if exists_ (fst r)
    then (Xmlrpc.Returned (fst (Xmlrpc.answer np _ (Xmlrpc.removeView e sm v g) (snd r))),
          snd (Xmlrpc.answer np _ (Xmlrpc.removeView e sm v g) (snd r)),
          [Xmlrpc.sentCall (Xmlrpc.viewExists e sm (group ++ "-" ++ view)%string);
           Xmlrpc.sentCall (Xmlrpc.removeView e sm v g)])
    else (Xmlrpc.Returned None, snd r,
          [Xmlrpc.sentCall (Xmlrpc.viewExists e sm (group ++ "-" ++ view)%string)]) in
  Xmlrpc.run np (Xmlrpc.CreateDataview s view group) w
  = (Xmlrpc.Returned (d, fst created), snd created,
     [Xmlrpc.sentCall (Xmlrpc.createView e sm view group)])
  /\ (Xmlrpc.cut group "-" = None ->
      Xmlrpc.run np (Xmlrpc.Close d) (snd created) = closing view group)
  /\ (forall g1 g2, Xmlrpc.cut group "-" = Some (g1, g2) ->
      Xmlrpc.run np (Xmlrpc.Close d) (snd created)
      = closing (g2 ++ "-" ++ view)%string g1).
Proof.
  intros e sm d created r closing. split; [|split].
  - unfold Xmlrpc.CreateDataview, Xmlrpc.EntityName, Xmlrpc.SamplerName. cbn.
    subst created e sm. destruct (Xmlrpc.answer np _ _ w) as [er w1]. reflexivity.
  - intros H. rewrite (run_Close np d view group _ (created_names_no_dash s view group H)).
    reflexivity.
  - intros g1 g2 H.
    rewrite (run_Close np d _ _ _ (created_names_dash s view group g1 g2 H)).
    reflexivity.
Qed.

Lemma Close_after_CreateDataview_witness :
  Xmlrpc.cut "SYSTEM" "-" = None
  /\ Xmlrpc.run exampleNetprobe
       (Xmlrpc.Close {| Xmlrpc.sampler := exampleSampler;
                        Xmlrpc.dataviewName := "SYSTEM-load" |}) [("SYSTEM", "load")]
     = (Xmlrpc.Returned None, [],
        [Xmlrpc.sentCall (Xmlrpc.viewExists "host" "cpu" "SYSTEM-load");
         Xmlrpc.sentCall (Xmlrpc.removeView "host" "cpu" "load" "SYSTEM")])
  /\ Xmlrpc.cut "a-b" "-" = Some ("a", "b")
  /\ Xmlrpc.run exampleNetprobe
       (Xmlrpc.Close {| Xmlrpc.sampler := exampleSampler;
                        Xmlrpc.dataviewName := "a-b-load" |}) [("a-b", "load")]
     = (Xmlrpc.Returned (Some (Xmlrpc.Remote "no such view")), [("a-b", "load")],
        [Xmlrpc.sentCall (Xmlrpc.viewExists "host" "cpu" "a-b-load");
         Xmlrpc.sentCall (Xmlrpc.removeView "host" "cpu" "b-load" "a")]).
Proof.
  split; [reflexivity|]. split.
  - exact (proj1 (proj2 (Close_after_CreateDataview exampleNetprobe exampleSampler
                           "load" "SYSTEM" [])) eq_refl).
  - split; [reflexivity|].
    exact (proj2 (proj2 (Close_after_CreateDataview exampleNetprobe exampleSampler
                           "load" "a-b" [])) "a" "b" eq_refl).
Defined.

(** X17: [Headline] never panics; when it returns no error it has
    asked whether the view and the headline exist, has added the headline
    exactly when the netprobe said it did not exist, and has then sent the
    first of [args], and only the first, as the value; without [args] no
    value is sent. *)
Theorem Headline_calls `{GoLib} (np : Xmlrpc.netprobe) d name args
    (w : Xmlrpc.world np) o w' calls :
  Xmlrpc.run np (Xmlrpc.Headline d name args) w = (o, w', calls) ->
  let e := Xmlrpc.entityName (Xmlrpc.sampler d) in
  let sm := Xmlrpc.samplerName (Xmlrpc.sampler d) in
  let dv := Xmlrpc.dataviewName d in
  let w1 := snd (Xmlrpc.answer np _ (askViewExists d) w) in
  let known := fst (fst (Xmlrpc.answer np _ (Xmlrpc.headlineExists e sm dv name) w1)) in
  exists r, o = Xmlrpc.Returned r
    /\ (r = None ->
        calls = Xmlrpc.sentCall (askViewExists d)
                :: Xmlrpc.sentCall (Xmlrpc.headlineExists e sm dv name)
                :: (if known then [] else [Xmlrpc.sentCall (Xmlrpc.addHeadline e sm dv name)])
                ++ match args with
                   | a :: _ => [Xmlrpc.sentCall
                                  (Xmlrpc.updateHeadline e sm dv name (Sprintf "%v" (VString a)))]
                   | [] => []
                   end).
Proof.
  intros Hrun e sm dv w1 known. revert Hrun.
  unfold Xmlrpc.Headline. rewrite run_bind, run_IsValid. cbn zeta.
  fold w1.
  destruct (exists_ (fst (Xmlrpc.answer np _ (askViewExists d) w))); cbn [negb].
  2:{ cbn. intros Hrun. inversion Hrun; subst. eexists; split; [reflexivity|discriminate]. }
  unfold Xmlrpc.EntityName, Xmlrpc.SamplerName, Xmlrpc.DataviewName.
  fold e sm dv. subst known. cbn.
  destruct (Xmlrpc.answer np _ (Xmlrpc.headlineExists e sm dv name) w1)
    as [[res [er|]] w2]; cbn.
  { intros Hrun. inversion Hrun; subst. eexists; split; [reflexivity|discriminate]. }
  destruct res; cbn.
  - destruct args as [|a more]; cbn.
    + intros Hrun. inversion Hrun; subst. eexists; split; reflexivity.
    + destruct (Xmlrpc.answer np _ _ w2) as [er w3].
      intros Hrun. inversion Hrun; subst. eexists; split; reflexivity.
  - destruct (Xmlrpc.answer np _ (Xmlrpc.addHeadline e sm dv name) w2) as [[er|] w3]; cbn.
    { intros Hrun. inversion Hrun; subst. eexists; split; [reflexivity|discriminate]. }
    destruct args as [|a more]; cbn.
    + intros Hrun. inversion Hrun; subst. eexists; split; reflexivity.
    + destruct (Xmlrpc.answer np _ _ w3) as [er w4].
      intros Hrun. inversion Hrun; subst. eexists; split; reflexivity.
Qed.

Lemma Headline_calls_witness :
  let d := {| Xmlrpc.sampler := exampleSampler; Xmlrpc.dataviewName := "SYSTEM-load" |} in
  exists r, @Xmlrpc.Returned (option Xmlrpc.err) None = Xmlrpc.Returned r
    /\ (r = None ->
        [Xmlrpc.sentCall (Xmlrpc.viewExists "host" "cpu" "SYSTEM-load");
         Xmlrpc.sentCall (Xmlrpc.headlineExists "host" "cpu" "SYSTEM-load" "total");
         Xmlrpc.sentCall (Xmlrpc.addHeadline "host" "cpu" "SYSTEM-load" "total");
         Xmlrpc.sentCall (Xmlrpc.updateHeadline "host" "cpu" "SYSTEM-load" "total" "7")]
        = [Xmlrpc.sentCall (Xmlrpc.viewExists "host" "cpu" "SYSTEM-load");
           Xmlrpc.sentCall (Xmlrpc.headlineExists "host" "cpu" "SYSTEM-load" "total");
           Xmlrpc.sentCall (Xmlrpc.addHeadline "host" "cpu" "SYSTEM-load" "total");
           Xmlrpc.sentCall (Xmlrpc.updateHeadline "host" "cpu" "SYSTEM-load" "total"
                              (@Sprintf exampleLib "%v" (VString "7")))]).
Proof.
  intros d.
  exact (@Headline_calls exampleLib exampleNetprobe d "total" ["7"; "8"]
           [("SYSTEM", "load")] _ _ _ eq_refl).
Defined.

Lemma run_UpdateTable (np : Xmlrpc.netprobe) d columns values (w : Xmlrpc.world np) :
  Xmlrpc.run np (Xmlrpc.UpdateTable d columns values) w =
  let r := Xmlrpc.answer np _ (askViewExists d) w in
  let up := Xmlrpc.updateEntireTable (Xmlrpc.entityName (Xmlrpc.sampler d))
              (Xmlrpc.samplerName (Xmlrpc.sampler d)) (Xmlrpc.dataviewName d)
              (columns :: values) in
  if exists_ (fst r)
  then (Xmlrpc.Returned (fst (Xmlrpc.answer np _ up (snd r))),
        snd (Xmlrpc.answer np _ up (snd r)),
        [Xmlrpc.sentCall (askViewExists d); Xmlrpc.sentCall up])
  else (Xmlrpc.Returned (Some (Xmlrpc.DoesNotExist "UpdateTable")), snd r,
        [Xmlrpc.sentCall (askViewExists d)]).
Proof.
  unfold Xmlrpc.UpdateTable. rewrite run_bind, run_IsValid. cbn zeta.
  destruct (exists_ (fst (Xmlrpc.answer np _ (askViewExists d) w))); cbn [negb].
  - cbn. unfold Xmlrpc.EntityName, Xmlrpc.SamplerName, Xmlrpc.DataviewName.
    destruct (Xmlrpc.answer np _ _ (snd (Xmlrpc.answer np _ (askViewExists d) w)))
      as [e w2]. reflexivity.
  - reflexivity.
Qed.

(** X18: the dataview of the samplers package against the xmlrpc
    method.  With [valid] the netprobe's answer to [viewExists], the table
    that the package-level [UpdateTable] stores is the table that the
    xmlrpc [UpdateTable] puts on the wire (the column names, then the rows
    in order), in one [updateEntireTable] call; and the one refuses exactly
    when the other sends nothing and reports that the dataview does not
    exist.  An error of the wire call itself is returned by the method and
    is outside the package-level dataview. *)
Theorem UpdateTable_sends_the_stored_table (np : Xmlrpc.netprobe) d columns values
    (w : Xmlrpc.world np) :
  let e := Xmlrpc.entityName (Xmlrpc.sampler d) in
  let sm := Xmlrpc.samplerName (Xmlrpc.sampler d) in
  let dv := Xmlrpc.dataviewName d in
  let r := Xmlrpc.answer np _ (askViewExists d) w in
  let stored := UpdateTable {| valid := exists_ (fst r); table := [] |} columns values in
  let up := Xmlrpc.updateEntireTable e sm dv (table (fst stored)) in
  (snd stored = None ->
     Xmlrpc.run np (Xmlrpc.UpdateTable d columns values) w
     = (Xmlrpc.Returned (fst (Xmlrpc.answer np _ up (snd r))),
        snd (Xmlrpc.answer np _ up (snd r)),
        [Xmlrpc.sentCall (askViewExists d); Xmlrpc.sentCall up])
     /\ table (fst stored) = columns :: values)
  /\ (snd stored <> None ->
     Xmlrpc.run np (Xmlrpc.UpdateTable d columns values) w
     = (Xmlrpc.Returned (Some (Xmlrpc.DoesNotExist "UpdateTable")), snd r,
        [Xmlrpc.sentCall (askViewExists d)])
     /\ snd stored = Some ErrNoDataview).
Proof.
  intros e sm dv r stored up. subst stored up. rewrite run_UpdateTable. cbn zeta.
  fold r. unfold UpdateTable. cbn [valid].
  destruct (exists_ (fst r)); cbn; split; intros Hs; try easy.
Qed.

Lemma UpdateTable_sends_the_stored_table_witness :
  let d := {| Xmlrpc.sampler := exampleSampler; Xmlrpc.dataviewName := "SYSTEM-load" |} in
  (Xmlrpc.run exampleNetprobe (Xmlrpc.UpdateTable d ["name"; "load"] [["cpu0"; "3"]])
     [("SYSTEM", "load")]
   = (Xmlrpc.Returned None, [("SYSTEM", "load")],
      [Xmlrpc.sentCall (Xmlrpc.viewExists "host" "cpu" "SYSTEM-load");
       Xmlrpc.sentCall (Xmlrpc.updateEntireTable "host" "cpu" "SYSTEM-load"
                          [["name"; "load"]; ["cpu0"; "3"]])]))
  /\ (Xmlrpc.run exampleNetprobe (Xmlrpc.UpdateTable d ["name"; "load"] [["cpu0"; "3"]]) []
      = (Xmlrpc.Returned (Some (Xmlrpc.DoesNotExist "UpdateTable")), [],
         [Xmlrpc.sentCall (Xmlrpc.viewExists "host" "cpu" "SYSTEM-load")])).
Proof.
  intros d. split.
  - exact (proj1 (proj1 (UpdateTable_sends_the_stored_table exampleNetprobe d
                           ["name"; "load"] [["cpu0"; "3"]] [("SYSTEM", "load")]) eq_refl)).
  - refine (proj1 (proj2 (UpdateTable_sends_the_stored_table exampleNetprobe d
                            ["name"; "load"] [["cpu0"; "3"]] []) _)).
    discriminate.
Defined.

Lemma run_Sampler_IsValid (np : Xmlrpc.netprobe) s (w : Xmlrpc.world np) :
  Xmlrpc.run np (Xmlrpc.Sampler_IsValid s) w =
  let c := Xmlrpc.samplerExists (Xmlrpc.entityName s) (Xmlrpc.samplerName s) in
  (Xmlrpc.Returned (exists_ (fst (Xmlrpc.answer np _ c w))),
   snd (Xmlrpc.answer np _ c w), [Xmlrpc.sentCall c]).
Proof.
  unfold Xmlrpc.Sampler_IsValid, Xmlrpc.EntityName, Xmlrpc.SamplerName. cbn.
  destruct (Xmlrpc.answer np _ _ w) as [[res [e|]] w1]; reflexivity.
Qed.

(** X19: the three ways [NewDataview] ends.  On a sampler the
    netprobe does not know it returns the error "sampler doesn't exist"
    after the one [samplerExists] call.  Otherwise it asks [removeView]
    and then [createView] for the view and group given; an error of
    [createView] ends the process, and in every other case it returns the
    dataview named [group-view] and no error: neither the answer to
    [removeView] nor the outcome of sending the initial table (made of
    [args], through [UpdateTable], only when [args] is not empty) shows in
    the results.  It never panics. *)
Theorem NewDataview_outcomes (np : Xmlrpc.netprobe) s view group args
    (w : Xmlrpc.world np) :
  let e := Xmlrpc.entityName s in
  let sm := Xmlrpc.samplerName s in
  let d := {| Xmlrpc.sampler := s; Xmlrpc.dataviewName := (group ++ "-" ++ view)%string |} in
  let sE := Xmlrpc.samplerExists e sm in
  let rV := Xmlrpc.removeView e sm view group in
  let cV := Xmlrpc.createView e sm view group in
  let w1 := snd (Xmlrpc.answer np _ sE w) in
  let w2 := snd (Xmlrpc.answer np _ rV w1) in
  let w3 := snd (Xmlrpc.answer np _ cV w2) in
  let '(o, w', calls) := Xmlrpc.run np (Xmlrpc.NewDataview s view group args) w in
  if negb (exists_ (fst (Xmlrpc.answer np _ sE w)))
  then o = Xmlrpc.Returned (None, Some (Xmlrpc.DoesNotExist "NewDataview"))
       /\ calls = [Xmlrpc.sentCall sE]
  else match fst (Xmlrpc.answer np _ cV w2) with
       | Some _ =>
           o = Xmlrpc.Exited
           /\ calls = [Xmlrpc.sentCall sE; Xmlrpc.sentCall rV; Xmlrpc.sentCall cV]
       | None =>
           o = Xmlrpc.Returned (Some d, None)
           /\ calls = [Xmlrpc.sentCall sE; Xmlrpc.sentCall rV; Xmlrpc.sentCall cV]
                      ++ match args with
                         | [] => []
                         | columns :: values =>
                             snd (Xmlrpc.run np (Xmlrpc.UpdateTable d columns values) w3)
                         end
       end.
Proof.
  intros e sm d sE rV cV w1 w2 w3.
  unfold Xmlrpc.NewDataview. rewrite run_bind, run_Sampler_IsValid. cbn zeta.
  fold e sm sE w1.
  destruct (exists_ (fst (Xmlrpc.answer np _ sE w))); cbn [negb].
  2:{ cbn. split; reflexivity. }
  unfold Xmlrpc.CreateDataview, Xmlrpc.EntityName, Xmlrpc.SamplerName.
  fold e sm rV cV d. cbn -[Xmlrpc.UpdateTable]. subst w3 w2.
  destruct (Xmlrpc.answer np _ rV w1) as [x w2]. cbn -[Xmlrpc.UpdateTable].
  destruct (Xmlrpc.answer np _ cV w2) as [[er|] w3]; cbn -[Xmlrpc.UpdateTable].
  { split; reflexivity. }
  destruct args as [|columns values].
  - cbn. split; reflexivity.
  - change (Xmlrpc.rpc_bind ?k ?m) with (m ≫= k). rewrite run_bind.
    destruct (Xmlrpc.run np (Xmlrpc.UpdateTable d columns values) w3) as [[o w4] calls] eqn:Hu.
    rewrite run_UpdateTable in Hu. cbn zeta in Hu.
    destruct (exists_ _) in Hu; inversion Hu; subst; cbn; split; reflexivity.
Qed.

(** X20: [Write] and [WriteString] of a stream.  Without a stream
    name nothing is sent and the result is 0 bytes and the error
    "streamname not set"; with one, exactly one message is sent, to that
    stream, holding the data, and the count returned is the length of the
    data when the netprobe accepted it and 0, with the netprobe's error,
    when it did not.  The two methods do the same. *)
Theorem Write_all_or_nothing (np : Xmlrpc.netprobe) s data (w : Xmlrpc.world np) :
  let msg := Xmlrpc.addMessageStream (Xmlrpc.entityName (Streams.Sampler s))
               (Xmlrpc.samplerName (Streams.Sampler s)) (Streams.name s) data in
  Xmlrpc.run np (Streams.WriteString s data) w = Xmlrpc.run np (Streams.Write s data) w
  /\ (Streams.name s = "" ->
      Xmlrpc.run np (Streams.Write s data) w
      = (Xmlrpc.Returned (0, Some Streams.StreamNameNotSet), w, []))
  /\ (Streams.name s <> "" ->
      Xmlrpc.run np (Streams.Write s data) w
      = (Xmlrpc.Returned
           match fst (Xmlrpc.answer np _ msg w) with
           | None => (len data, None)
           | Some x => (0, Some (Streams.FromXmlrpc x))
           end,
         snd (Xmlrpc.answer np _ msg w), [Xmlrpc.sentCall msg])).
Proof.
  intros msg. split; [reflexivity|]. unfold Streams.Write. split.
  - intros ->. reflexivity.
  - intros Hn. apply String.eqb_neq in Hn. rewrite Hn.
    unfold Xmlrpc.WriteMessage, Xmlrpc.EntityName, Xmlrpc.SamplerName. cbn. fold msg.
    destruct (Xmlrpc.answer np _ msg w) as [[x|] w1]; reflexivity.
Qed.

Lemma Write_all_or_nothing_witness :
  Xmlrpc.run exampleNetprobe
    (Streams.Write {| Streams.Sampler := exampleSampler; Streams.name := "" |} "hello") []
  = (Xmlrpc.Returned (0, Some Streams.StreamNameNotSet), [], [])
  /\ Xmlrpc.run exampleNetprobe
       (Streams.Write
          (Streams.SetStreamName {| Streams.Sampler := exampleSampler; Streams.name := "" |}
             "log")
          "hello") []
     = (Xmlrpc.Returned (5, None), [],
        [Xmlrpc.sentCall (Xmlrpc.addMessageStream "host" "cpu" "log" "hello")]).
Proof.
  split.
  - exact (proj1 (proj2 (Write_all_or_nothing exampleNetprobe
             {| Streams.Sampler := exampleSampler; Streams.name := "" |} "hello" []))
             eq_refl).
  - refine (proj2 (proj2 (Write_all_or_nothing exampleNetprobe
             (Streams.SetStreamName
                {| Streams.Sampler := exampleSampler; Streams.name := "" |} "log")
             "hello" [])) _).
    discriminate.
Defined.

(** * Delta mode on an unchanged value *)

Lemma f64_sub_diag x : finite x = true -> f64_sub x x = S754_zero false.
Proof.
  destruct x as [sx|sx| |sx mx ex]; try discriminate; intros _.
  - now destruct sx.
  - unfold f64_sub, SFsub. cbv zeta. now rewrite Z.sub_diag.
Qed.

Lemma f64_div_zero sx sg m e :
  f64_div (S754_zero sx) (S754_finite sg m e) = S754_zero (xorb sx sg).
Proof. reflexivity. Qed.

(** X21: a counter that did not move.  When [RowsFromMapDelta] returns
    without error, every shared key gets a row in which a visible numeric
    field holding the same finite value in the current and in the previous
    record renders as the field's format applied to zero: to +0 for the
    interval zero and every interval whose seconds are positive, to -0
    for one whose seconds are negative. *)
Theorem delta_unchanged_is_zero {L : GoLib} s rnew rold interval rows k fsn fso sg m e :
  RowsFromMapDelta s (Map rnew) (Map rold) interval = Ret (rows, None) ->
  In k (map fst rnew) ->
  MapIndex rnew k = Some (Struct fsn) -> MapIndex rold k = Some (Struct fso) ->
  (if interval =? 0 then f64_of_Z 1 else Seconds interval) = S754_finite sg m e ->
  exists row, In row rows /\
    forall j f v,
      fsn !! j = Some (f, v) -> map snd fso !! j = Some v ->
      visible (columns s) f ->
      ConvertibleToFloat (TypeOf v) = true -> finite (Convert v) = true ->
      row !! renderedIndex (columns s) (map fst fsn) j
      = Some (Sprintf (format (col (columns s) (Name f))) (VFloat64 (S754_zero sg))).
Proof.
  intros H Hk Hn Ho Hd.
  destruct (RowsFromMapDelta_complete s rnew rold interval rows H) as [_ Hall].
  destruct (Hall k Hk) as (row & Hin & Hrow). exists row. split; [exact Hin|].
  intros j f v Hj Hoj Hv Hc Hfin.
  unfold deltaRow in Hrow. rewrite Hn, Ho in Hrow. cbn [rowFromStruct fieldsOf] in Hrow.
  pose proof (deltaCells_cell _ _ _ _ _ _ _ _ j f v v
                (eq_sym (eq_trans (length_map _ _) (eq_sym (length_map _ _)))) Hrow) as Hcell.
  cbn [length Nat.add] in Hcell. rewrite Hcell.
  - unfold deltaCell. rewrite (toFloat_convertible _ Hc), (f64_sub_diag _ Hfin).
    revert Hd. destruct (interval =? 0).
    + rewrite Seconds_one_second. intros ->. reflexivity.
    + intros ->. reflexivity.
  - rewrite lookup_map, Hj. reflexivity.
  - exact Hv.
  - rewrite lookup_map, Hj. reflexivity.
  - exact Hoj.
Qed.

Lemma delta_unchanged_is_zero_witness :
  exists row, In row [["0"]] /\ row !! 0%nat = Some "0".
Proof.
  pose (s := samplerOf (registryOf (Item (recCount (VInt 0)))) ["Count"] "Count").
  destruct (delta_unchanged_is_zero (L := exampleLib) s
              [("a", recCount (VInt 100))] [("a", recCount (VInt 100))] (10 * Second)
              [["0"]] "a" [(field "Count", VInt 100)] [(field "Count", VInt 100)]
              false 5629499534213120%positive (-49))
    as (row & Hin & Hcell).
  - vm_compute. reflexivity.
  - cbn. now left.
  - reflexivity.
  - reflexivity.
  - vm_compute. reflexivity.
  - exists row. split; [exact Hin|].
    apply (Hcell 0%nat (field "Count") (VInt 100)).
    + reflexivity.
    + reflexivity.
    + vm_compute. discriminate.
    + reflexivity.
    + reflexivity.
Defined.
